(** * go-multihash: the digest computer [Sum] and the identifier codec

    A shallow embedding of [sum.go] of the vendored go-multihash package.
    Unsigned 64-bit codes are integers of [Z] with the wrap-around written
    out, byte buffers are lists of 8-bit integers, Go slices keep their
    spare capacity, the package-level table [DefaultLengths] is the state
    threaded through every call, and a call ends in a value, an error value
    or a run-time panic. *)

From stdpp Require Import gmap list strings.
From Stdlib Require Import ZArith Lia.

Local Open Scope Z_scope.

(** ** Bytes and machine integers *)

Definition byte : Type := Z.

(** Conversion [byte(x)] of an unsigned integer: the low eight bits. *)
Definition to_byte (x : Z) : byte := x mod 256.

Definition is_byte (b : Z) : Prop := 0 <= b < 256.

Definition uint64_max : Z := 2 ^ 64 - 1.

Definition is_uint64 (x : Z) : Prop := 0 <= x <= uint64_max.

Definition is_uint32 (x : Z) : Prop := 0 <= x < 2 ^ 32.

(** Arithmetic on [uint64] wraps around. *)
Definition wrap64 (x : Z) : Z := x mod 2 ^ 64.

(** ** Go slices

    A slice is a window on a backing array: [elems] are the [len] visible
    elements, [spare] the elements of the backing array after them, up to
    the capacity.  Re-slicing above the capacity is a run-time panic;
    re-slicing above the length but within the capacity exposes [spare]. *)

Module GoSlice.

Record slice : Type := mk { elems : list byte; spare : list byte }.

Definition backing (s : slice) : list byte := elems s ++ spare s.

Definition len (s : slice) : Z := Z.of_nat (length (elems s)).

Definition cap (s : slice) : Z := Z.of_nat (length (backing s)).

(** [a[lo:hi]] on an array [a]. *)
Definition of_array (a : list byte) (lo hi : nat) : slice :=
  {| elems := take (hi - lo) (drop lo a); spare := drop hi a |}.

(** [a[:]] on an array [a]. *)
Definition all (a : list byte) : slice := of_array a 0 (length a).

(** [make([]byte, n)]. *)
Definition make (n : nat) : slice := {| elems := replicate n 0; spare := [] |}.

(** [s[0:hi]]: [None] stands for the panic "slice bounds out of range". *)
Definition reslice (s : slice) (hi : Z) : option slice :=
  if (0 <=? hi) && (hi <=? cap s)
  then Some {| elems := take (Z.to_nat hi) (backing s);
               spare := drop (Z.to_nat hi) (backing s) |}
  else None.

End GoSlice.

Abbreviation slice := GoSlice.slice.

(** ** Errors, outcomes and the monad of a call *)

Inductive family : Type := Blake2s | Blake2b.

Inductive error : Type :=
| InvalidCode (code : Z)                       (* "invalid multihash code %d" *)
| NoDefaultLength (code : Z)                   (* "no default length for code %d" *)
| UnsupportedLength (f : family) (olen : Z)    (* "unsupported length for blake2x: %d" *)
| ErrSumNotSupported                           (* "Function not implemented. ..." *)
| PrimitiveFailure (msg : string)              (* error of a primitive's Write *)
| InconsistentLength
| MalformedVarint
| Truncated
| TrailingData.

Inductive panic : Type :=
| SliceBoundsOutOfRange (hi cap : Z).

Inductive outcome (A : Type) : Type :=
| Ret (a : A)
| Fail (e : error)
| Crash (p : panic).

Arguments Ret {A} a.
Arguments Fail {A} e.
Arguments Crash {A} p.

(** The package-level variables read by [Sum].  [DefaultLengths] is a Go
    map, hence a variable of the package, not a constant. *)
Record Globals : Type := { DefaultLengths : gmap Z Z }.

Definition M (A : Type) : Type := Globals -> outcome A * Globals.

#[global] Instance M_ret : MRet M := fun A a g => (Ret a, g).

#[global] Instance M_bind : MBind M := fun A B k m g =>
  match m g with
  | (Ret a, g') => k a g'
  | (Fail e, g') => (Fail e, g')
  | (Crash p, g') => (Crash p, g')
  end.

Definition fail {A : Type} (e : error) : M A := fun g => (Fail e, g).

Definition crash {A : Type} (p : panic) : M A := fun g => (Crash p, g).

(** [v, ok = DefaultLengths[code]]. *)
Definition lookupDefaultLength (code : Z) : M (option Z) :=
  fun g => (Ret (DefaultLengths g !! code), g).

(** A fallible pure computation run inside a call. *)
Definition lift {A : Type} (r : error + A) : M A :=
  match r with
  | inl e => fail e
  | inr a => mret a
  end.

(** [d[0:length]] inside a call. *)
Definition reslice (d : slice) (hi : Z) : M slice :=
  match GoSlice.reslice d hi with
  | Some s => mret s
  | None => crash (SliceBoundsOutOfRange hi (GoSlice.cap d))
  end.

(** ** The identifier codec *)

Definition MaxVarintLen64 : nat := 10.

(** Modelled from the spec: the variable-length integer writer is the
    standard library's [binary.PutUvarint], called from multihash.go, which
    is not among the sources.  Section 6 of the spec: unsigned,
    little-endian, base 128, the high bit of a byte set when more bytes
    follow.  A 64-bit value takes at most [MaxVarintLen64] bytes. *)
Fixpoint putUvarint_aux (fuel : nat) (x : Z) : list byte :=
  match fuel with
  | O => [to_byte x]
  | S fuel' =>
      if x <? 128 then [to_byte x]
      else Z.lor (Z.land x 127) 128 :: putUvarint_aux fuel' (Z.shiftr x 7)
  end.

Definition putUvarint (x : Z) : list byte := putUvarint_aux (MaxVarintLen64 - 1) x.

(** Modelled from the spec: the variable-length integer reader used by
    [Decode] (multihash.go, not among the sources).  It returns the value
    and the bytes that follow it; a sequence that ends on a continuation
    byte is malformed. *)
Fixpoint uvarint (bs : list byte) : option (Z * list byte) :=
  match bs with
  | [] => None
  | b :: rest =>
      if b <? 128 then Some (b, rest)
      else match uvarint rest with
           | Some (v, rest') => Some (Z.lor (Z.land b 127) (Z.shiftl v 7), rest')
           | None => None
           end
  end.

Definition Multihash : Type := list byte.

Record DecodedMultihash : Type :=
  { Code : Z; Length : Z; Digest : list byte }.

(** Modelled from the spec: [Encode] is declared in multihash.go, which is
    not among the sources.  Section 4.3 of the spec: the code as a varint,
    the length as a varint, then exactly [length] digest bytes; a digest
    whose size differs from [length] is an [InconsistentLength] error, and
    the code has to be in the range of the unsigned integer type. *)
Definition Encode (digestBytes : list byte) (code : Z) (length : Z) : error + Multihash :=
  if negb ((0 <=? code) && (code <=? uint64_max)) then inl (InvalidCode code)
  else if negb (Z.of_nat (List.length digestBytes) =? length) then inl InconsistentLength
  else inr (putUvarint code ++ putUvarint length ++ digestBytes).

(** Modelled from the spec: [Decode] is declared in multihash.go, which is
    not among the sources.  Section 4.3 of the spec: the varint code, the
    varint length, then exactly [length] bytes; [Truncated] when fewer bytes
    remain, [TrailingData] when more do, [MalformedVarint] when an integer
    does not terminate. *)
Definition Decode (bs : list byte) : error + DecodedMultihash :=
  match uvarint bs with
  | None => inl MalformedVarint
  | Some (code, rest) =>
      match uvarint rest with
      | None => inl MalformedVarint
      | Some (length, digest) =>
          if Z.of_nat (List.length digest) <? length then inl Truncated
          else if length <? Z.of_nat (List.length digest) then inl TrailingData
          else inr {| Code := code; Length := length; Digest := digest |}
      end
  end.

(** ** The registry constants and the hash primitives *)

(** The algorithm codes named by [sum.go].  Their declarations are in
    multihash.go, which is not among the sources, so the development is
    parametric in their values. *)
Record Constants : Type :=
  { SHA1 : Z;
    SHA2_256 : Z;
    SHA2_512 : Z;
    SHA3 : Z;
    KECCAK_224 : Z;
    KECCAK_256 : Z;
    KECCAK_384 : Z;
    KECCAK_512 : Z;
    DBL_SHA2_256 : Z;
    MURMUR3 : Z;
    BLAKE2B_MIN : Z;
    BLAKE2B_MAX : Z;
    BLAKE2S_MIN : Z;
    BLAKE2S_MAX : Z }.

(** The hash functions of the imported packages.  Functions that return a
    Go array ([[20]byte], [[32]byte], ...) give the array's elements; the
    streaming hashes give the slice returned by [h.Sum(nil)] after
    [h.Write(data)]. *)
Record Primitives : Type :=
  { sha1_Sum : list byte -> list byte;
    sha256_Sum256 : list byte -> list byte;
    sha512_Sum512 : list byte -> list byte;
    keccak_New224 : list byte -> slice;
    keccak_New256 : list byte -> slice;
    keccak_New384 : list byte -> slice;
    keccak_New512 : list byte -> slice;
    sha3_New512_Write : list byte -> option string;
    sha3_New512_Sum : list byte -> slice;
    blake2s_Sum256 : list byte -> list byte;
    blake2b_Sum256 : list byte -> list byte;
    blake2b_Sum384 : list byte -> list byte;
    blake2b_Sum512 : list byte -> list byte;
    murmur3_Sum32 : list byte -> Z }.

(** ** [sum.go] *)

Section SumGo.

Variable K : Constants.

(** [ValidCode] is declared in multihash.go, which is not among the
    sources: [Sum] is parametric in it. *)
Variable ValidCode : Z -> bool.

Variable P : Primitives.

Definition isBlake2s (code : Z) : bool :=
  (BLAKE2S_MIN K <=? code) && (code <=? BLAKE2S_MAX K).

Definition isBlake2b (code : Z) : bool :=
  (BLAKE2B_MIN K <=? code) && (code <=? BLAKE2B_MAX K).

Definition sumSHA1 (data : list byte) : slice :=
  let a := sha1_Sum P data in
  GoSlice.of_array a 0 20.

Definition sumSHA256 (data : list byte) : slice :=
  let a := sha256_Sum256 P data in
  GoSlice.of_array a 0 32.

Definition sumSHA512 (data : list byte) : slice :=
  let a := sha512_Sum512 P data in
  GoSlice.of_array a 0 64.

Definition sumKeccak224 (data : list byte) : slice := keccak_New224 P data.

Definition sumKeccak256 (data : list byte) : slice := keccak_New256 P data.

Definition sumKeccak384 (data : list byte) : slice := keccak_New384 P data.

Definition sumKeccak512 (data : list byte) : slice := keccak_New512 P data.

Definition sumSHA3 (data : list byte) : M slice :=
  match sha3_New512_Write P data with
  | Some err => fail (PrimitiveFailure err)
  | None => mret (sha3_New512_Sum P data)
  end.

(** The body of [for i := range bytes] in [sumMURMUR3], run over the
    indices [ixs] that remain. *)
Fixpoint sumMURMUR3_loop (ixs : list nat) (bytes : list byte) (number : Z) : list byte :=
  match ixs with
  | [] => bytes
  | i :: ixs' =>
      sumMURMUR3_loop ixs' (<[i := to_byte (Z.land number 255)]> bytes) (Z.shiftr number 8)
  end.

Definition sumMURMUR3 (data : list byte) : M slice :=
  let number := murmur3_Sum32 P data in
  let bytes := GoSlice.make 4 in
  let n := List.length (GoSlice.elems bytes) in
  mret (GoSlice.mk (sumMURMUR3_loop (seq 0 n) (GoSlice.elems bytes) number) (GoSlice.spare bytes)).

(** The [switch] of [Sum]: the digest [d] of the primitive that the code
    selects. *)
Definition Sum_switch (data : list byte) (code : Z) : M slice :=
  if isBlake2s code then
    let olen := wrap64 (code - BLAKE2S_MIN K + 1) in
    if olen =? 32 then mret (GoSlice.all (blake2s_Sum256 P data))
    else fail (UnsupportedLength Blake2s olen)
  else if isBlake2b code then
    let olen := wrap64 (code - BLAKE2B_MIN K + 1) in
    if olen =? 32 then mret (GoSlice.all (blake2b_Sum256 P data))
    else if olen =? 48 then mret (GoSlice.all (blake2b_Sum384 P data))
    else if olen =? 64 then mret (GoSlice.all (blake2b_Sum512 P data))
    else fail (UnsupportedLength Blake2b olen)
  else if code =? SHA1 K then mret (sumSHA1 data)
  else if code =? SHA2_256 K then mret (sumSHA256 data)
  else if code =? SHA2_512 K then mret (sumSHA512 data)
  else if code =? KECCAK_224 K then mret (sumKeccak224 data)
  else if code =? KECCAK_256 K then mret (sumKeccak256 data)
  else if code =? KECCAK_384 K then mret (sumKeccak384 data)
  else if code =? KECCAK_512 K then mret (sumKeccak512 data)
  else if code =? SHA3 K then sumSHA3 data
  else if code =? DBL_SHA2_256 K then
    mret (sumSHA256 (GoSlice.elems (sumSHA256 data)))
  else if code =? MURMUR3 K then sumMURMUR3 data
  else fail ErrSumNotSupported.

(** [Sum(data, code, length)].  A negative [length] asks for the default
    length of the code.  The source hands [d[0:length]] and the code to
    [Encode]; the length written is that of the buffer. *)
Definition Sum (data : list byte) (code : Z) (length : Z) : M Multihash :=
  if negb (ValidCode code) then fail (InvalidCode code)
  else
    length ← (if length <? 0 then
                r ← lookupDefaultLength code;
                match r with
                | Some n => mret n
                | None => fail (NoDefaultLength code)
                end
              else mret length);
    d ← Sum_switch data code;
    buf ← reslice d length;
    lift (Encode (GoSlice.elems buf) code (GoSlice.len buf)).

End SumGo.

(** ** The registry, as far as [Sum] relies on it *)

(** The fixed codes: one [case] of the inner [switch] each. *)
Definition fixedCodes (K : Constants) : list Z :=
  [ SHA1 K; SHA2_256 K; SHA2_512 K; KECCAK_224 K; KECCAK_256 K;
    KECCAK_384 K; KECCAK_512 K; SHA3 K; DBL_SHA2_256 K; MURMUR3 K ].

(** The family of a code, tested in the order of the outer [switch]. *)
Definition familyOf (K : Constants) (code : Z) : option family :=
  if isBlake2s K code then Some Blake2s
  else if isBlake2b K code then Some Blake2b
  else None.

Definition familyMin (K : Constants) (f : family) : Z :=
  match f with
  | Blake2s => BLAKE2S_MIN K
  | Blake2b => BLAKE2B_MIN K
  end.

(** The output size that a family code stands for: its offset in the range
    of the family, plus one. *)
Definition derivedSize (K : Constants) (f : family) (code : Z) : Z :=
  code - familyMin K f + 1.

(** The output sizes for which a family has a [case]. *)
Definition supportedSize (f : family) (size : Z) : bool :=
  match f with
  | Blake2s => size =? 32
  | Blake2b => (size =? 32) || (size =? 48) || (size =? 64)
  end.

(** The primitive of a family for a supported output size. *)
Definition familyDigest (P : Primitives) (f : family) (size : Z) (data : list byte) : list byte :=
  match f with
  | Blake2s => blake2s_Sum256 P data
  | Blake2b =>
      if size =? 32 then blake2b_Sum256 P data
      else if size =? 48 then blake2b_Sum384 P data
      else blake2b_Sum512 P data
  end.

(** The natural output size of the primitive that a code selects: the size
    of the array or of the digest it returns; [None] when the [switch]
    selects no primitive. *)
Definition outputSize (K : Constants) (code : Z) : option Z :=
  match familyOf K code with
  | Some f =>
      let olen := wrap64 (derivedSize K f code) in
      if supportedSize f olen then Some olen else None
  | None =>
      if code =? SHA1 K then Some 20
      else if code =? SHA2_256 K then Some 32
      else if code =? SHA2_512 K then Some 64
      else if code =? KECCAK_224 K then Some 28
      else if code =? KECCAK_256 K then Some 32
      else if code =? KECCAK_384 K then Some 48
      else if code =? KECCAK_512 K then Some 64
      else if code =? SHA3 K then Some 64
      else if code =? DBL_SHA2_256 K then Some 32
      else if code =? MURMUR3 K then Some 4
      else None
  end.

(** What the declarations of the constants guarantee: they are [uint64]
    values, the [case] labels of the inner [switch] are distinct, and no
    fixed code lies in a family range. *)
Record consts_wf (K : Constants) : Prop :=
  { fixed_uint64 : Forall is_uint64 (fixedCodes K);
    fixed_distinct : NoDup (fixedCodes K);
    fixed_not_family : Forall (fun c => familyOf K c = None) (fixedCodes K);
    blake2s_min_uint64 : is_uint64 (BLAKE2S_MIN K);
    blake2b_min_uint64 : is_uint64 (BLAKE2B_MIN K) }.

(** What the imported packages guarantee: the sizes of the arrays and
    digests, a 32-bit murmur3 sum, and a [Write] that returns no error
    (the contract of [hash.Hash]). *)
Record prim_wf (P : Primitives) : Prop :=
  { sha1_size : forall data, List.length (sha1_Sum P data) = 20%nat;
    sha256_size : forall data, List.length (sha256_Sum256 P data) = 32%nat;
    sha512_size : forall data, List.length (sha512_Sum512 P data) = 64%nat;
    keccak224_size : forall data, GoSlice.len (keccak_New224 P data) = 28;
    keccak256_size : forall data, GoSlice.len (keccak_New256 P data) = 32;
    keccak384_size : forall data, GoSlice.len (keccak_New384 P data) = 48;
    keccak512_size : forall data, GoSlice.len (keccak_New512 P data) = 64;
    sha3_write_ok : forall data, sha3_New512_Write P data = None;
    sha3_size : forall data, GoSlice.len (sha3_New512_Sum P data) = 64;
    blake2s256_size : forall data, List.length (blake2s_Sum256 P data) = 32%nat;
    blake2b256_size : forall data, List.length (blake2b_Sum256 P data) = 32%nat;
    blake2b384_size : forall data, List.length (blake2b_Sum384 P data) = 48%nat;
    blake2b512_size : forall data, List.length (blake2b_Sum512 P data) = 64%nat;
    murmur3_range : forall data, is_uint32 (murmur3_Sum32 P data) }.

(** The length that step 2 of [Sum] settles on. *)
Definition resolvedLength (g : Globals) (code length : Z) : option Z :=
  if length <? 0 then DefaultLengths g !! code else Some length.

(** The four bytes of a 32-bit value, least significant first. *)
Definition le32 (x : Z) : list byte :=
  [ x mod 256; (x / 256) mod 256; (x / 65536) mod 256; (x / 16777216) mod 256 ].

(** A call returned a multihash that carries [code] and the digest [dg]. *)
Definition returns (r : outcome Multihash * Globals) (code : Z) (dg : list byte) : Prop :=
  exists mh,
    r.1 = Ret mh /\
    Decode mh = inr {| Code := code; Length := Z.of_nat (List.length dg); Digest := dg |}.

(** ** A concrete registry *)

(** Modelled from the spec: the numeric values of the codes are declared in
    multihash.go, which is not among the sources, and the spec fixes only
    their partition into fixed codes and two family ranges.  The values
    below are those of the multihash table; they instantiate the
    parametric statements. *)
Definition multicodec : Constants :=
  {| SHA1 := 0x11;
     SHA2_256 := 0x12;
     SHA2_512 := 0x13;
     SHA3 := 0x14;
     KECCAK_224 := 0x1A;
     KECCAK_256 := 0x1B;
     KECCAK_384 := 0x1C;
     KECCAK_512 := 0x1D;
     DBL_SHA2_256 := 0x56;
     MURMUR3 := 0x22;
     BLAKE2B_MIN := 0xb201;
     BLAKE2B_MAX := 0xb240;
     BLAKE2S_MIN := 0xb241;
     BLAKE2S_MAX := 0xb260 |}.

(** Modelled from the spec: [ValidCode] is declared in multihash.go, which
    is not among the sources.  Section 4.1 of the spec: true iff the code
    is a known fixed code or lies within a known family range, bounds
    included. *)
Definition ValidCode_spec (K : Constants) (code : Z) : bool :=
  bool_decide (code ∈ fixedCodes K) || isBlake2s K code || isBlake2b K code.

(** The entries of a family range: every code with its derived size. *)
Definition familyLengths (lo hi : Z) : list (Z * Z) :=
  (fun i => (lo + Z.of_nat i, Z.of_nat i + 1)) <$> seq 0 (Z.to_nat (hi - lo + 1)).

(** Modelled from the spec: the initial value of [DefaultLengths] is
    declared in multihash.go, which is not among the sources.  Section 3 of
    the spec: every fixed code that can be summed has its canonical digest
    length; for the family codes, which [Sum] looks up in the same table,
    the derived size. *)
Definition standardLengths (K : Constants) : gmap Z Z :=
  list_to_map
    ([ (SHA1 K, 20); (SHA2_256 K, 32); (SHA2_512 K, 64); (SHA3 K, 64);
       (DBL_SHA2_256 K, 32); (KECCAK_224 K, 28); (KECCAK_256 K, 32);
       (KECCAK_384 K, 48); (KECCAK_512 K, 64); (MURMUR3 K, 4) ]
     ++ familyLengths (BLAKE2B_MIN K) (BLAKE2B_MAX K)
     ++ familyLengths (BLAKE2S_MIN K) (BLAKE2S_MAX K)).

Definition standardGlobals : Globals :=
  {| DefaultLengths := standardLengths multicodec |}.

(** Stand-ins for the imported hash functions, with the output sizes of the
    real ones: the first bytes of the input, padded with zeros.  They serve
    to run [Sum] on concrete inputs; the parametric statements hold for
    every suite of primitives. *)
Definition padded (n : nat) (data : list byte) : list byte :=
  take n (data ++ replicate n 0).

Definition standIns : Primitives :=
  {| sha1_Sum := padded 20;
     sha256_Sum256 := padded 32;
     sha512_Sum512 := padded 64;
     keccak_New224 := fun data => GoSlice.mk (padded 28 data) [0; 0; 0; 0];
     keccak_New256 := fun data => GoSlice.mk (padded 32 data) [];
     keccak_New384 := fun data => GoSlice.mk (padded 48 data) [];
     keccak_New512 := fun data => GoSlice.mk (padded 64 data) [];
     sha3_New512_Write := fun _ => None;
     sha3_New512_Sum := fun data => GoSlice.mk (padded 64 data) [];
     blake2s_Sum256 := padded 32;
     blake2b_Sum256 := padded 32;
     blake2b_Sum384 := padded 48;
     blake2b_Sum512 := padded 64;
     murmur3_Sum32 := fun data => (0x04030201 + Z.of_nat (List.length data)) mod 2 ^ 32 |}.

(** The stand-ins again, with a sha3 hash whose [Write] reports an
    error. *)
Definition standInsFailingWrite : Primitives :=
  {| sha1_Sum := sha1_Sum standIns;
     sha256_Sum256 := sha256_Sum256 standIns;
     sha512_Sum512 := sha512_Sum512 standIns;
     keccak_New224 := keccak_New224 standIns;
     keccak_New256 := keccak_New256 standIns;
     keccak_New384 := keccak_New384 standIns;
     keccak_New512 := keccak_New512 standIns;
     sha3_New512_Write := fun _ => Some "short write"%string;
     sha3_New512_Sum := sha3_New512_Sum standIns;
     blake2s_Sum256 := blake2s_Sum256 standIns;
     blake2b_Sum256 := blake2b_Sum256 standIns;
     blake2b_Sum384 := blake2b_Sum384 standIns;
     blake2b_Sum512 := blake2b_Sum512 standIns;
     murmur3_Sum32 := murmur3_Sum32 standIns |}.

(** * Properties *)

(** ** Variable-length integers *)

Lemma low7_spec (x : Z) : Z.land x 127 = x mod 128.
Proof. change 127 with (Z.ones 7). rewrite Z.land_ones by lia. reflexivity. Qed.

Lemma low7_range (x : Z) : 0 <= Z.land x 127 < 128.
Proof. rewrite low7_spec. apply Z.mod_pos_bound. lia. Qed.

Lemma land_low_high (a v : Z) : 0 <= a < 128 -> Z.land a (Z.shiftl v 7) = 0.
Proof.
  intros Ha. apply Z.bits_inj'. intros n Hn.
  rewrite Z.land_spec, Z.bits_0.
  destruct (Z.lt_ge_cases n 7) as [Hlt | Hge].
  - rewrite (Z.shiftl_spec_low v 7 n) by lia. apply andb_false_r.
  - destruct (Z.eq_dec a 0) as [-> | Hne].
    + rewrite Z.bits_0. reflexivity.
    + rewrite (Z.bits_above_log2 a n); [reflexivity | lia |].
      apply Z.log2_lt_pow2; [lia |].
      apply Z.lt_le_trans with (2 ^ 7); [lia |].
      apply Z.pow_le_mono_r; lia.
Qed.

Lemma lor_low_high (a v : Z) : 0 <= a < 128 -> Z.lor a (Z.shiftl v 7) = a + 128 * v.
Proof.
  intros Ha.
  rewrite <- Z.lxor_lor by (apply land_low_high; exact Ha).
  rewrite <- Z.add_nocarry_lxor by (apply land_low_high; exact Ha).
  rewrite Z.shiftl_mul_pow2 by lia. lia.
Qed.

Lemma continuation_byte (x : Z) : Z.lor (Z.land x 127) 128 = Z.land x 127 + 128.
Proof.
  change 128 with (Z.shiftl 1 7) at 1.
  rewrite lor_low_high by apply low7_range. lia.
Qed.

Lemma continuation_low7 (x : Z) : Z.land (Z.lor (Z.land x 127) 128) 127 = Z.land x 127.
Proof.
  rewrite continuation_byte, (low7_spec (_ + _)).
  pose proof (low7_range x) as Hr.
  rewrite <- (Z.mul_1_l 128) at 1. rewrite Z.mod_add by lia.
  apply Z.mod_small. exact Hr.
Qed.

Lemma uvarint_putUvarint_aux (fuel : nat) :
  forall (x : Z) (rest : list byte),
    0 <= x < 2 ^ (7 * (Z.of_nat fuel + 1)) ->
    uvarint (putUvarint_aux fuel x ++ rest) = Some (x, rest).
Proof.
  induction fuel as [| fuel IH]; intros x rest Hx.
  - change (2 ^ (7 * (Z.of_nat 0 + 1))) with 128 in Hx.
    cbn [putUvarint_aux app uvarint]. unfold to_byte.
    rewrite (Z.mod_small x 256) by lia.
    destruct (Z.ltb_spec x 128); [reflexivity | lia].
  - cbn [putUvarint_aux].
    destruct (Z.ltb_spec x 128) as [Hlt | Hge].
    + cbn [app uvarint]. unfold to_byte.
      rewrite (Z.mod_small x 256) by lia.
      destruct (Z.ltb_spec x 128); [reflexivity | lia].
    + cbn [app uvarint].
      destruct (Z.ltb_spec (Z.lor (Z.land x 127) 128) 128) as [Hb | Hb].
      { rewrite continuation_byte in Hb. pose proof (low7_range x). lia. }
      rewrite IH.
      * rewrite continuation_low7, lor_low_high by apply low7_range.
        rewrite low7_spec, Z.shiftr_div_pow2 by lia.
        change (2 ^ 7) with 128.
        rewrite (Z.div_mod x 128) at 3 by lia. f_equal. f_equal. lia.
      * rewrite Z.shiftr_div_pow2 by lia. split.
        { apply Z.div_pos; lia. }
        apply Z.div_lt_upper_bound; [lia |].
        rewrite <- Z.pow_add_r by lia.
        replace (7 + 7 * (Z.of_nat fuel + 1)) with (7 * (Z.of_nat (S fuel) + 1)) by lia.
        apply Hx.
Qed.

Lemma uvarint_putUvarint (x : Z) (rest : list byte) :
  is_uint64 x -> uvarint (putUvarint x ++ rest) = Some (x, rest).
Proof.
  intros [Hlo Hhi]. unfold putUvarint. apply uvarint_putUvarint_aux.
  split; [exact Hlo |].
  unfold uint64_max in Hhi.
  apply Z.le_lt_trans with (2 ^ 64 - 1); [exact Hhi |].
  change (7 * (Z.of_nat (MaxVarintLen64 - 1) + 1)) with 70.
  assert (2 ^ 64 < 2 ^ 70) by (apply Z.pow_lt_mono_r; lia). lia.
Qed.

(** ** The codec *)

Lemma Encode_inr (dg : list byte) (code n : Z) :
  is_uint64 code -> Z.of_nat (List.length dg) = n ->
  Encode dg code n = inr (putUvarint code ++ putUvarint n ++ dg).
Proof.
  intros [Hlo Hhi] Hn. unfold Encode.
  destruct (Z.leb_spec 0 code); [| lia].
  destruct (Z.leb_spec code uint64_max); [| lia].
  cbn [andb negb]. rewrite Hn, Z.eqb_refl. reflexivity.
Qed.

Lemma Decode_encoding (dg : list byte) (code : Z) :
  is_uint64 code -> is_uint64 (Z.of_nat (List.length dg)) ->
  Decode (putUvarint code ++ putUvarint (Z.of_nat (List.length dg)) ++ dg)
  = inr {| Code := code; Length := Z.of_nat (List.length dg); Digest := dg |}.
Proof.
  intros Hc Hl. unfold Decode.
  rewrite uvarint_putUvarint by exact Hc.
  rewrite uvarint_putUvarint by exact Hl.
  rewrite Z.ltb_irrefl. reflexivity.
Qed.

(** ** Slices *)

Lemma of_array_whole (a : list byte) (n : nat) :
  List.length a = n ->
  GoSlice.of_array a 0 n = GoSlice.mk a [].
Proof.
  intros <-. unfold GoSlice.of_array.
  rewrite Nat.sub_0_r, drop_0, firstn_all, drop_all. reflexivity.
Qed.

Lemma all_whole (a : list byte) : GoSlice.all a = GoSlice.mk a [].
Proof. apply of_array_whole. reflexivity. Qed.

Lemma cap_whole (a : list byte) : GoSlice.cap (GoSlice.mk a []) = Z.of_nat (List.length a).
Proof. unfold GoSlice.cap, GoSlice.backing. cbn. rewrite app_nil_r. reflexivity. Qed.

Lemma len_le_cap (d : slice) : GoSlice.len d <= GoSlice.cap d.
Proof.
  unfold GoSlice.len, GoSlice.cap, GoSlice.backing.
  rewrite length_app. lia.
Qed.

Lemma reslice_within (d : slice) (n : Z) :
  0 <= n <= GoSlice.cap d ->
  GoSlice.reslice d n
  = Some (GoSlice.mk (take (Z.to_nat n) (GoSlice.backing d))
                     (drop (Z.to_nat n) (GoSlice.backing d))).
Proof.
  intros [Hlo Hhi]. unfold GoSlice.reslice.
  destruct (Z.leb_spec 0 n); [| lia].
  destruct (Z.leb_spec n (GoSlice.cap d)); [| lia].
  reflexivity.
Qed.

Lemma reslice_outside (d : slice) (n : Z) :
  ~ 0 <= n <= GoSlice.cap d -> GoSlice.reslice d n = None.
Proof.
  intros Hn. unfold GoSlice.reslice.
  destruct (Z.leb_spec 0 n); [| reflexivity].
  destruct (Z.leb_spec n (GoSlice.cap d)); [lia | reflexivity].
Qed.

Lemma length_take_backing (d : slice) (n : Z) :
  0 <= n <= GoSlice.cap d ->
  Z.of_nat (List.length (take (Z.to_nat n) (GoSlice.backing d))) = n.
Proof.
  intros [Hlo Hhi]. unfold GoSlice.cap in Hhi.
  rewrite length_take. lia.
Qed.

Lemma take_backing_within (d : slice) (n : Z) :
  0 <= n <= GoSlice.len d ->
  take (Z.to_nat n) (GoSlice.backing d) = take (Z.to_nat n) (GoSlice.elems d).
Proof.
  intros [Hlo Hhi]. unfold GoSlice.backing, GoSlice.len in *.
  apply take_app_le. lia.
Qed.

(** ** The monad *)

Ltac munfold :=
  cbv beta iota delta
    [mbind mret M_bind M_ret fail crash lift lookupDefaultLength reslice].

Lemma resolvedLength_explicit (g : Globals) (code length : Z) :
  0 <= length -> resolvedLength g code length = Some length.
Proof. intros H. unfold resolvedLength. destruct (Z.ltb_spec length 0); [lia | reflexivity]. Qed.

Lemma resolvedLength_default (g : Globals) (code length : Z) :
  length < 0 -> resolvedLength g code length = DefaultLengths g !! code.
Proof. intros H. unfold resolvedLength. destruct (Z.ltb_spec length 0); [reflexivity | lia]. Qed.

Section SumFacts.

Variable K : Constants.
Variable ValidCode : Z -> bool.
Variable P : Primitives.

Lemma sumSHA3_frame (data : list byte) (g : Globals) : (sumSHA3 P data g).2 = g.
Proof. unfold sumSHA3. destruct (sha3_New512_Write P data); reflexivity. Qed.

Lemma Sum_switch_frame (data : list byte) (code : Z) (g : Globals) :
  (Sum_switch K P data code g).2 = g.
Proof.
  unfold Sum_switch.
  repeat match goal with
         | |- context [if ?b then _ else _] => destruct b
         end;
    try reflexivity; apply sumSHA3_frame.
Qed.

Lemma Sum_invalid (data : list byte) (code length : Z) (g : Globals) :
  ValidCode code = false ->
  Sum K ValidCode P data code length g = (Fail (InvalidCode code), g).
Proof. intros Hv. unfold Sum. rewrite Hv. reflexivity. Qed.

Lemma Sum_no_default (data : list byte) (code length : Z) (g : Globals) :
  ValidCode code = true -> resolvedLength g code length = None ->
  Sum K ValidCode P data code length g = (Fail (NoDefaultLength code), g).
Proof.
  intros Hv Hr. unfold Sum, resolvedLength in *. rewrite Hv. cbn [negb].
  destruct (length <? 0); [| discriminate].
  munfold. rewrite Hr. reflexivity.
Qed.

(** Once the code is valid and the length resolved, the result is that of
    the [switch], the re-slicing and the encoding. *)
Lemma Sum_resolved (data : list byte) (code length n : Z) (g : Globals) :
  ValidCode code = true -> resolvedLength g code length = Some n ->
  Sum K ValidCode P data code length g
  = match Sum_switch K P data code g with
    | (Ret d, g') =>
        match GoSlice.reslice d n with
        | Some buf =>
            match Encode (GoSlice.elems buf) code (GoSlice.len buf) with
            | inr mh => (Ret mh, g')
            | inl e => (Fail e, g')
            end
        | None => (Crash (SliceBoundsOutOfRange n (GoSlice.cap d)), g')
        end
    | (Fail e, g') => (Fail e, g')
    | (Crash p, g') => (Crash p, g')
    end.
Proof.
  intros Hv Hr. unfold Sum, resolvedLength in *. rewrite Hv. cbn [negb].
  munfold.
  destruct (length <? 0).
  - rewrite Hr.
    destruct (Sum_switch K P data code g) as [[d | e | p] g']; [| reflexivity ..].
    destruct (GoSlice.reslice d n); [| reflexivity].
    destruct (Encode _ _ _); reflexivity.
  - injection Hr as ->.
    destruct (Sum_switch K P data code g) as [[d | e | p] g']; [| reflexivity ..].
    destruct (GoSlice.reslice d n); [| reflexivity].
    destruct (Encode _ _ _); reflexivity.
Qed.

Lemma Sum_digest (data : list byte) (code length n : Z) (d : slice) (g : Globals) :
  ValidCode code = true -> resolvedLength g code length = Some n ->
  Sum_switch K P data code g = (Ret d, g) ->
  0 <= n <= GoSlice.cap d -> is_uint64 code ->
  Sum K ValidCode P data code length g
  = (Ret (putUvarint code ++ putUvarint n ++ take (Z.to_nat n) (GoSlice.backing d)), g).
Proof.
  intros Hv Hr Hd Hn Hc.
  rewrite (Sum_resolved _ _ _ n) by assumption.
  rewrite Hd, reslice_within by exact Hn. cbn [GoSlice.elems].
  unfold GoSlice.len. cbn [GoSlice.elems].
  rewrite Encode_inr; [| exact Hc | reflexivity].
  rewrite length_take_backing by exact Hn. reflexivity.
Qed.

Lemma Sum_switch_fails (data : list byte) (code length n : Z) (e : error) (g : Globals) :
  ValidCode code = true -> resolvedLength g code length = Some n ->
  Sum_switch K P data code g = (Fail e, g) ->
  Sum K ValidCode P data code length g = (Fail e, g).
Proof.
  intros Hv Hr Hd. rewrite (Sum_resolved _ _ _ n) by assumption.
  rewrite Hd. reflexivity.
Qed.

Lemma Sum_out_of_range (data : list byte) (code length n : Z) (d : slice) (g : Globals) :
  ValidCode code = true -> resolvedLength g code length = Some n ->
  Sum_switch K P data code g = (Ret d, g) ->
  ~ 0 <= n <= GoSlice.cap d ->
  Sum K ValidCode P data code length g
  = (Crash (SliceBoundsOutOfRange n (GoSlice.cap d)), g).
Proof.
  intros Hv Hr Hd Hn. rewrite (Sum_resolved _ _ _ n) by assumption.
  rewrite Hd, reslice_outside by exact Hn. reflexivity.
Qed.

Lemma Sum_frame (data : list byte) (code length : Z) (g : Globals) :
  (Sum K ValidCode P data code length g).2 = g.
Proof.
  destruct (ValidCode code) eqn:Hv.
  - destruct (resolvedLength g code length) as [n |] eqn:Hr.
    + rewrite (Sum_resolved _ _ _ n) by assumption.
      pose proof (Sum_switch_frame data code g) as Hf.
      destruct (Sum_switch K P data code g) as [[d | e | p] g']; cbn in Hf; subst g';
        [| reflexivity ..].
      destruct (GoSlice.reslice d n); [| reflexivity].
      destruct (Encode _ _ _); reflexivity.
    + rewrite Sum_no_default by assumption. reflexivity.
  - rewrite Sum_invalid by assumption. reflexivity.
Qed.

End SumFacts.

(** ** The [switch] *)

Section SwitchFacts.

Variable K : Constants.
Variable P : Primitives.

Lemma familyOf_None (c : Z) :
  familyOf K c = None -> isBlake2s K c = false /\ isBlake2b K c = false.
Proof.
  unfold familyOf.
  destruct (isBlake2s K c); [discriminate |].
  destruct (isBlake2b K c); [discriminate |]. auto.
Qed.

Lemma familyOf_min (c : Z) (f : family) :
  familyOf K c = Some f -> familyMin K f <= c.
Proof.
  unfold familyOf, isBlake2s, isBlake2b.
  destruct (Z.leb_spec (BLAKE2S_MIN K) c); cbn [andb].
  - destruct (c <=? BLAKE2S_MAX K).
    + intros [= <-]. assumption.
    + destruct (Z.leb_spec (BLAKE2B_MIN K) c); cbn [andb]; [| discriminate].
      destruct (c <=? BLAKE2B_MAX K); [| discriminate].
      intros [= <-]. assumption.
  - destruct (Z.leb_spec (BLAKE2B_MIN K) c); cbn [andb]; [| discriminate].
    destruct (c <=? BLAKE2B_MAX K); [| discriminate].
    intros [= <-]. assumption.
Qed.

(** A family code yields the digest of the family's primitive for the
    derived size, or the error of the [default] case. *)
Lemma Sum_switch_family (data : list byte) (c : Z) (f : family) (g : Globals) :
  familyOf K c = Some f ->
  Sum_switch K P data c g
  = let olen := wrap64 (derivedSize K f c) in
    if supportedSize f olen
    then (Ret (GoSlice.mk (familyDigest P f olen data) []), g)
    else (Fail (UnsupportedLength f olen), g).
Proof.
  unfold familyOf, Sum_switch, derivedSize, familyMin, supportedSize, familyDigest.
  destruct (isBlake2s K c).
  - intros [= <-]. cbv zeta.
    destruct (_ =? 32); [| reflexivity].
    munfold. rewrite all_whole. reflexivity.
  - destruct (isBlake2b K c); [| discriminate].
    intros [= <-]. cbv zeta.
    destruct (_ =? 32); [munfold; rewrite all_whole; reflexivity |].
    destruct (_ =? 48); [munfold; rewrite all_whole; reflexivity |].
    destruct (_ =? 64); [munfold; rewrite all_whole; reflexivity |].
    reflexivity.
Qed.

(** The derived size of a family code does not wrap around, except for
    the one code whose size is no [uint64]. *)
Lemma supportedSize_wrap (c : Z) (f : family) :
  familyOf K c = Some f -> is_uint64 c -> is_uint64 (familyMin K f) ->
  supportedSize f (wrap64 (derivedSize K f c)) = supportedSize f (derivedSize K f c)
  /\ (supportedSize f (derivedSize K f c) = true ->
      wrap64 (derivedSize K f c) = derivedSize K f c).
Proof.
  intros Hf [Hc0 Hc1] [Hm0 Hm1]. apply familyOf_min in Hf.
  unfold wrap64, derivedSize, uint64_max in *.
  set (s := c - familyMin K f + 1) in *.
  assert (Hs : 1 <= s <= 2 ^ 64) by (subst s; lia).
  destruct (Z.eq_dec s (2 ^ 64)) as [-> | Hne].
  - split; [| destruct f; vm_compute; discriminate].
    destruct f; vm_compute; reflexivity.
  - rewrite Z.mod_small by lia. auto.
Qed.

Lemma familyDigest_size (f : family) (size : Z) (data : list byte) :
  prim_wf P -> supportedSize f size = true ->
  Z.of_nat (List.length (familyDigest P f size data)) = size.
Proof.
  intros HP. unfold supportedSize, familyDigest. destruct f.
  - intros ->%Z.eqb_eq. rewrite (blake2s256_size P HP). reflexivity.
  - destruct (Z.eqb_spec size 32) as [-> |];
      [rewrite (blake2b256_size P HP); reflexivity |].
    destruct (Z.eqb_spec size 48) as [-> |];
      [rewrite (blake2b384_size P HP); reflexivity |].
    destruct (Z.eqb_spec size 64) as [-> |];
      [rewrite (blake2b512_size P HP); reflexivity | discriminate].
Qed.

Lemma sumMURMUR3_eq (data : list byte) (g : Globals) :
  sumMURMUR3 P data g
  = (Ret (GoSlice.mk
            [ to_byte (Z.land (murmur3_Sum32 P data) 255);
              to_byte (Z.land (Z.shiftr (murmur3_Sum32 P data) 8) 255);
              to_byte (Z.land (Z.shiftr (Z.shiftr (murmur3_Sum32 P data) 8) 8) 255);
              to_byte (Z.land (Z.shiftr (Z.shiftr (Z.shiftr (murmur3_Sum32 P data) 8) 8) 8) 255) ]
            []), g).
Proof. reflexivity. Qed.

Lemma low8_spec (x : Z) : to_byte (Z.land x 255) = x mod 256.
Proof.
  unfold to_byte. change 255 with (Z.ones 8). rewrite Z.land_ones by lia.
  change (2 ^ 8) with 256. apply Z.mod_mod. lia.
Qed.

(** The loop of [sumMURMUR3] writes the little-endian bytes. *)
Lemma sumMURMUR3_le32 (data : list byte) (g : Globals) :
  sumMURMUR3 P data g = (Ret (GoSlice.mk (le32 (murmur3_Sum32 P data)) []), g).
Proof.
  rewrite sumMURMUR3_eq. unfold le32. rewrite !low8_spec.
  rewrite !Z.shiftr_div_pow2 by lia. change (2 ^ 8) with 256.
  rewrite !Z.div_div by lia. reflexivity.
Qed.

(** The digest that the [switch] computes for a fixed code has the
    natural size of its primitive. *)
Lemma Sum_switch_fixed (data : list byte) (c : Z) (g : Globals) :
  prim_wf P -> familyOf K c = None -> c ∈ fixedCodes K ->
  exists d sz,
    Sum_switch K P data c g = (Ret d, g) /\
    outputSize K c = Some sz /\ GoSlice.len d = sz.
Proof.
  intros HP Hf Hin. unfold outputSize. rewrite Hf.
  apply familyOf_None in Hf as [Hs Hb].
  unfold Sum_switch. rewrite Hs, Hb.
  unfold sumSHA1, sumSHA256, sumSHA512, sumKeccak224, sumKeccak256,
    sumKeccak384, sumKeccak512, sumSHA3.
  rewrite (sha3_write_ok P HP).
  repeat match goal with
         | |- context [c =? ?k] => destruct (Z.eqb_spec c k)
         end;
    try (eexists _, _; split; [munfold; reflexivity | split; [reflexivity |]]).
  11: { unfold fixedCodes in Hin. rewrite !elem_of_cons in Hin.
        rewrite elem_of_nil in Hin. intuition congruence. }
  all: try (rewrite of_array_whole by
               first [apply (sha1_size P HP) | apply (sha256_size P HP)
                     | apply (sha512_size P HP)]).
  all: unfold GoSlice.len; cbn [GoSlice.elems];
    rewrite ?(sha1_size P HP), ?(sha256_size P HP), ?(sha512_size P HP);
    try reflexivity.
  - apply (keccak224_size P HP).
  - apply (keccak256_size P HP).
  - apply (keccak384_size P HP).
  - apply (keccak512_size P HP).
  - apply (sha3_size P HP).
Qed.

End SwitchFacts.

Section FixedCases.

Variable K : Constants.
Variable P : Primitives.
Hypothesis HK : consts_wf K.

Lemma fixed_code_facts (c : Z) :
  c ∈ fixedCodes K -> familyOf K c = None /\ is_uint64 c.
Proof.
  intros Hin. split.
  - pose proof (fixed_not_family K HK) as H.
    rewrite Forall_forall in H. apply H. exact Hin.
  - pose proof (fixed_uint64 K HK) as H.
    rewrite Forall_forall in H. apply H. exact Hin.
Qed.

Ltac distinct_cases :=
  let Hnd := fresh "Hnd" in
  pose proof (fixed_distinct K HK) as Hnd; unfold fixedCodes in Hnd;
  repeat (apply NoDup_cons in Hnd as [? Hnd]);
  repeat match goal with
         | H : _ ∉ _ :: _ |- _ => rewrite !not_elem_of_cons in H
         end;
  repeat match goal with
         | |- context [?a =? ?b] =>
             destruct (Z.eqb_spec a b); [try (exfalso; intuition congruence) |]
         end.

Lemma Sum_switch_SHA1 (data : list byte) (g : Globals) :
  Sum_switch K P data (SHA1 K) g = (Ret (sumSHA1 P data), g).
Proof.
  assert (Hin : SHA1 K ∈ fixedCodes K) by (unfold fixedCodes; set_solver).
  apply fixed_code_facts in Hin as [[Hs Hb]%familyOf_None _].
  unfold Sum_switch. rewrite Hs, Hb, Z.eqb_refl. reflexivity.
Qed.

Lemma Sum_switch_DBL_SHA2_256 (data : list byte) (g : Globals) :
  Sum_switch K P data (DBL_SHA2_256 K) g
  = (Ret (sumSHA256 P (GoSlice.elems (sumSHA256 P data))), g).
Proof.
  assert (Hin : DBL_SHA2_256 K ∈ fixedCodes K) by (unfold fixedCodes; set_solver).
  apply fixed_code_facts in Hin as [[Hs Hb]%familyOf_None _].
  unfold Sum_switch. rewrite Hs, Hb.
  distinct_cases; [reflexivity | congruence].
Qed.

Lemma Sum_switch_MURMUR3 (data : list byte) (g : Globals) :
  Sum_switch K P data (MURMUR3 K) g = sumMURMUR3 P data g.
Proof.
  assert (Hin : MURMUR3 K ∈ fixedCodes K) by (unfold fixedCodes; set_solver).
  apply fixed_code_facts in Hin as [[Hs Hb]%familyOf_None _].
  unfold Sum_switch. rewrite Hs, Hb.
  distinct_cases; [reflexivity | congruence].
Qed.

End FixedCases.

Lemma outputSize_bound (K : Constants) (c sz : Z) :
  outputSize K c = Some sz -> 0 <= sz <= 64.
Proof.
  unfold outputSize. destruct (familyOf K c) as [f |].
  - cbv zeta. destruct (supportedSize f _) eqn:Hs; [| discriminate].
    intros [= <-]. revert Hs. unfold supportedSize.
    generalize (wrap64 (derivedSize K f c)) as s. intros s.
    destruct f.
    + intros ->%Z.eqb_eq. lia.
    + rewrite !orb_true_iff, !Z.eqb_eq. lia.
  - repeat match goal with
           | |- context [c =? ?k] => destruct (c =? k)
           end; intros [= <-]; lia.
Qed.

Lemma returns_encoding (code : Z) (dg : list byte) (g : Globals) :
  is_uint64 code -> is_uint64 (Z.of_nat (List.length dg)) ->
  returns (Ret (putUvarint code ++ putUvarint (Z.of_nat (List.length dg)) ++ dg), g) code dg.
Proof.
  intros Hc Hl. eexists. split; [reflexivity |].
  apply Decode_encoding; assumption.
Qed.

(** A call that ends the [switch] with the digest [d] returns the first [n]
    bytes of the backing array of [d], for every resolved length [n] within
    the capacity. *)
Lemma Sum_returns (K : Constants) (V : Z -> bool) (P : Primitives)
    (data : list byte) (code length n : Z) (d : slice) (g : Globals) :
  V code = true -> resolvedLength g code length = Some n ->
  Sum_switch K P data code g = (Ret d, g) ->
  0 <= n <= GoSlice.cap d -> n <= uint64_max -> is_uint64 code ->
  returns (Sum K V P data code length g) code (take (Z.to_nat n) (GoSlice.backing d)).
Proof.
  intros Hv Hr Hd Hn Hmax Hc.
  rewrite (Sum_digest K V P data code length n d) by assumption.
  rewrite <- (length_take_backing d n) at 1 by exact Hn.
  apply returns_encoding; [exact Hc |].
  rewrite length_take_backing by exact Hn. unfold is_uint64. lia.
Qed.

(** ** The concrete registry is well formed *)

Lemma multicodec_wf : consts_wf multicodec.
Proof.
  split.
  - unfold fixedCodes, is_uint64, uint64_max. cbn.
    repeat (apply Forall_cons; split; [lia |]). apply Forall_nil. exact I.
  - apply (bool_decide_unpack _). vm_compute. exact I.
  - unfold fixedCodes. cbn.
    repeat (apply Forall_cons; split; [reflexivity |]). apply Forall_nil. exact I.
  - unfold is_uint64, uint64_max. cbn. lia.
  - unfold is_uint64, uint64_max. cbn. lia.
Defined.

Lemma length_padded (n : nat) (data : list byte) : List.length (padded n data) = n.
Proof.
  unfold padded. rewrite length_take, length_app, length_replicate. lia.
Defined.

Lemma standIns_wf : prim_wf standIns.
Proof.
  split; intros data; cbn;
    try apply length_padded;
    try (unfold GoSlice.len; cbn; rewrite length_padded; reflexivity).
  - reflexivity.
  - unfold is_uint32. apply Z.mod_pos_bound. lia.
Defined.

(** ** The claims *)

(** C1.  For every fixed code [c] that is registered and has an entry [n]
    in the default-length table, and for every input [data], the empty one
    included, [Sum(data, c, length)] with a negative [length] succeeds and
    returns a digest of exactly [n] bytes.  The table is a missing part of
    the program: its entry is taken to be a length that the primitive of
    [c] can deliver, at most its natural output size. *)
Theorem Sum_default_fixed (K : Constants) (V : Z -> bool) (P : Primitives)
    (data : list byte) (c length n sz : Z) (g : Globals) :
  consts_wf K -> prim_wf P ->
  c ∈ fixedCodes K -> V c = true ->
  length < 0 -> DefaultLengths g !! c = Some n ->
  outputSize K c = Some sz -> 0 <= n <= sz ->
  exists dg,
    returns (Sum K V P data c length g) c dg /\
    Z.of_nat (List.length dg) = n /\
    (Sum K V P data c length g).2 = g.
Proof.
  intros HK HP Hin Hv Hneg Hn Hsz Hle.
  destruct (fixed_code_facts K HK c Hin) as [Hf Hc].
  destruct (Sum_switch_fixed K P data c g HP Hf Hin) as (d & sz' & Hd & Hsz' & Hlen).
  rewrite Hsz in Hsz'. injection Hsz' as <-.
  pose proof (outputSize_bound K c sz Hsz) as Hb.
  pose proof (len_le_cap d) as Hcap.
  assert (Hr : resolvedLength g c length = Some n)
    by (rewrite resolvedLength_default by exact Hneg; exact Hn).
  exists (take (Z.to_nat n) (GoSlice.backing d)). split; [| split].
  - apply Sum_returns; try assumption; unfold uint64_max; lia.
  - apply length_take_backing. lia.
  - apply Sum_frame.
Qed.

Lemma Sum_default_fixed_witness :
  exists dg,
    returns (Sum multicodec (ValidCode_spec multicodec) standIns [] 0x11 (-1) standardGlobals)
            0x11 dg /\
    Z.of_nat (List.length dg) = 20 /\
    (Sum multicodec (ValidCode_spec multicodec) standIns [] 0x11 (-1) standardGlobals).2
    = standardGlobals.
Proof.
  apply (Sum_default_fixed multicodec (ValidCode_spec multicodec) standIns
           [] 0x11 (-1) 20 20 standardGlobals).
  - exact multicodec_wf.
  - exact standIns_wf.
  - apply (bool_decide_unpack _). vm_compute. exact I.
  - vm_compute. reflexivity.
  - lia.
  - vm_compute. reflexivity.
  - vm_compute. reflexivity.
  - lia.
Defined.

(** C2.  For every family code [c] (blake2s or blake2b range) whose table
    entry is its derived size [c - familyMin + 1]: when the derived size is
    implemented (32 for blake2s; 32, 48 or 64 for blake2b),
    [Sum(data, c, length)] with a negative [length] returns exactly that
    many bytes; when it is not, [Sum] fails with the unsupported-length
    error of the family, for every [length]. *)
Theorem Sum_default_family (K : Constants) (V : Z -> bool) (P : Primitives)
    (data : list byte) (c length : Z) (f : family) (g : Globals) :
  consts_wf K -> prim_wf P ->
  is_uint64 c -> V c = true -> familyOf K c = Some f ->
  length < 0 -> DefaultLengths g !! c = Some (derivedSize K f c) ->
  if supportedSize f (derivedSize K f c)
  then exists dg,
         returns (Sum K V P data c length g) c dg /\
         Z.of_nat (List.length dg) = derivedSize K f c
  else forall l,
         Sum K V P data c l g
         = (Fail (UnsupportedLength f (wrap64 (derivedSize K f c))), g).
Proof.
  intros HK HP Hc Hv Hf Hneg Hn.
  assert (Hmin : is_uint64 (familyMin K f))
    by (destruct f; [apply (blake2s_min_uint64 K HK) | apply (blake2b_min_uint64 K HK)]).
  destruct (supportedSize_wrap K c f Hf Hc Hmin) as [Hsup Hwrap].
  pose proof (Sum_switch_family K P data c f g Hf) as Hd. cbv zeta in Hd.
  rewrite Hsup in Hd.
  destruct (supportedSize f (derivedSize K f c)) eqn:Hs.
  - rewrite (Hwrap eq_refl) in Hd.
    pose proof (familyDigest_size P f _ data HP Hs) as Hlen.
    set (a := familyDigest P f (derivedSize K f c) data) in *.
    assert (Hr : resolvedLength g c length = Some (derivedSize K f c))
      by (rewrite resolvedLength_default by exact Hneg; exact Hn).
    assert (Hb : 0 <= derivedSize K f c <= 64).
    { revert Hs. unfold supportedSize. destruct f.
      - intros ->%Z.eqb_eq. lia.
      - rewrite !orb_true_iff, !Z.eqb_eq. lia. }
    exists (take (Z.to_nat (derivedSize K f c)) (GoSlice.backing (GoSlice.mk a []))).
    split.
    + apply Sum_returns; try assumption.
      * rewrite cap_whole. lia.
      * unfold uint64_max. lia.
    + apply length_take_backing. rewrite cap_whole. lia.
  - intros l.
    assert (Hr : exists n, resolvedLength g c l = Some n).
    { unfold resolvedLength. destruct (l <? 0); eauto. }
    destruct Hr as [n Hr].
    apply (Sum_switch_fails K V P data c l n); assumption.
Qed.

Lemma Sum_default_family_witness :
  (exists dg,
     returns (Sum multicodec (ValidCode_spec multicodec) standIns [] 0xb230 (-1) standardGlobals)
             0xb230 dg /\
     Z.of_nat (List.length dg) = 48) /\
  (forall l,
     Sum multicodec (ValidCode_spec multicodec) standIns [] 0xb250 l standardGlobals
     = (Fail (UnsupportedLength Blake2s 16), standardGlobals)).
Proof.
  split.
  - apply (Sum_default_family multicodec (ValidCode_spec multicodec) standIns
             [] 0xb230 (-1) Blake2b standardGlobals).
    + exact multicodec_wf.
    + exact standIns_wf.
    + unfold is_uint64, uint64_max. lia.
    + vm_compute. reflexivity.
    + vm_compute. reflexivity.
    + lia.
    + vm_compute. reflexivity.
  - apply (Sum_default_family multicodec (ValidCode_spec multicodec) standIns
             [] 0xb250 (-1) Blake2s standardGlobals).
    + exact multicodec_wf.
    + exact standIns_wf.
    + unfold is_uint64, uint64_max. lia.
    + vm_compute. reflexivity.
    + vm_compute. reflexivity.
    + lia.
    + vm_compute. reflexivity.
Defined.

(** C3.  Round trip of the codec: for every digest, every code in the
    range of the unsigned integer type and every length that is the
    digest's size, [Encode] succeeds and [Decode] of the encoding gives
    back the code, the length and the digest. *)
Theorem Decode_Encode (digest : list byte) (code length : Z) :
  is_uint64 code -> is_uint64 length ->
  Z.of_nat (List.length digest) = length ->
  exists mh,
    Encode digest code length = inr mh /\
    Decode mh = inr {| Code := code; Length := length; Digest := digest |}.
Proof.
  intros Hc Hl Hlen. eexists. split.
  - apply Encode_inr; assumption.
  - subst length. apply Decode_encoding; assumption.
Qed.

Lemma Decode_Encode_witness :
  exists mh,
    Encode [0xde; 0xad; 0xbe; 0xef] 0xb220 4 = inr mh /\
    Decode mh = inr {| Code := 0xb220; Length := 4; Digest := [0xde; 0xad; 0xbe; 0xef] |}.
Proof.
  apply (Decode_Encode [0xde; 0xad; 0xbe; 0xef] 0xb220 4).
  - unfold is_uint64, uint64_max. lia.
  - unfold is_uint64, uint64_max. lia.
  - reflexivity.
Defined.

Lemma backing_whole (a : list byte) : GoSlice.backing (GoSlice.mk a []) = a.
Proof. unfold GoSlice.backing. cbn. apply app_nil_r. Qed.

(** What a successful call went through. *)
Lemma Sum_returns_inv (K : Constants) (V : Z -> bool) (P : Primitives)
    (data : list byte) (code length : Z) (mh : Multihash) (g : Globals) :
  (Sum K V P data code length g).1 = Ret mh ->
  exists n d,
    V code = true /\ resolvedLength g code length = Some n /\
    Sum_switch K P data code g = (Ret d, g) /\
    0 <= n <= GoSlice.cap d /\ is_uint64 code /\
    mh = putUvarint code ++ putUvarint n ++ take (Z.to_nat n) (GoSlice.backing d).
Proof.
  intros Hret.
  destruct (V code) eqn:Hv; [| rewrite Sum_invalid in Hret by exact Hv; discriminate].
  destruct (resolvedLength g code length) as [n |] eqn:Hr;
    [| rewrite Sum_no_default in Hret by assumption; discriminate].
  pose proof (Sum_switch_frame K P data code g) as Hfr.
  destruct (Sum_switch K P data code g) as [[d | e | p] g'] eqn:Hd; cbn in Hfr; subst g'.
  - assert (Hn : 0 <= n <= GoSlice.cap d).
    { destruct (Z.le_gt_cases 0 n); [destruct (Z.le_gt_cases n (GoSlice.cap d)) |];
        [lia | |];
        (rewrite (Sum_out_of_range K V P data code length n d) in Hret
            by (try assumption; lia); discriminate). }
    assert (Hc : is_uint64 code).
    { rewrite (Sum_resolved K V P data code length n) in Hret by assumption.
      rewrite Hd, reslice_within in Hret by exact Hn.
      unfold Encode, is_uint64 in *.
      destruct (Z.leb_spec 0 code); [| discriminate].
      destruct (Z.leb_spec code uint64_max); [lia | discriminate]. }
    exists n, d.
    split; [reflexivity |]. split; [reflexivity |]. split; [reflexivity |].
    split; [exact Hn |]. split; [exact Hc |].
    rewrite (Sum_digest K V P data code length n d) in Hret by assumption.
    cbn [fst] in Hret. injection Hret as <-. reflexivity.
  - rewrite (Sum_switch_fails K V P data code length n e) in Hret by assumption.
    discriminate.
  - rewrite (Sum_resolved K V P data code length n) in Hret by assumption.
    rewrite Hd in Hret. discriminate.
Qed.

(** C4.  The code at an explicit length above the natural output size of
    SHA1: the slice expression [d[0:length]] is reached with [length]
    above the capacity 20 of the digest, and the call ends in the run-time
    panic of an out-of-range slice, not in an error value. *)
Theorem Sum_overlong_SHA1_panics (K : Constants) (V : Z -> bool) (P : Primitives)
    (data : list byte) (length : Z) (g : Globals) :
  consts_wf K -> prim_wf P -> V (SHA1 K) = true -> 20 < length ->
  Sum K V P data (SHA1 K) length g = (Crash (SliceBoundsOutOfRange length 20), g).
Proof.
  intros HK HP Hv Hlen.
  pose proof (Sum_switch_SHA1 K P HK data g) as Hd.
  unfold sumSHA1 in Hd. rewrite of_array_whole in Hd by apply (sha1_size P HP).
  rewrite (Sum_out_of_range K V P data (SHA1 K) length length _ g Hv
             (resolvedLength_explicit g _ length ltac:(lia)) Hd).
  - rewrite cap_whole, (sha1_size P HP). reflexivity.
  - rewrite cap_whole, (sha1_size P HP). lia.
Qed.

Lemma Sum_overlong_SHA1_panics_witness :
  Sum multicodec (ValidCode_spec multicodec) standIns [] 0x11 21 standardGlobals
  = (Crash (SliceBoundsOutOfRange 21 20), standardGlobals).
Proof.
  apply (Sum_overlong_SHA1_panics multicodec (ValidCode_spec multicodec) standIns
           [] 21 standardGlobals).
  - exact multicodec_wf.
  - exact standIns_wf.
  - vm_compute. reflexivity.
  - lia.
Defined.

(** For every code and every explicit length above the size of the digest
    that the [switch] computes, [Sum] does not end in an error value: it
    panics, or returns spare bytes of the backing array after the digest. *)
Lemma Sum_overlong_no_error (K : Constants) (V : Z -> bool) (P : Primitives)
    (data : list byte) (code length : Z) (d : slice) (g : Globals) :
  V code = true -> is_uint64 code ->
  Sum_switch K P data code g = (Ret d, g) -> GoSlice.len d < length ->
  forall e, (Sum K V P data code length g).1 <> Fail e.
Proof.
  intros Hv Hc Hd Hlen e.
  pose proof (len_le_cap d) as Hcap.
  assert (H0 : 0 <= GoSlice.len d) by (unfold GoSlice.len; lia).
  assert (Hr : resolvedLength g code length = Some length)
    by (apply resolvedLength_explicit; lia).
  destruct (Z.le_gt_cases length (GoSlice.cap d)).
  - rewrite (Sum_digest K V P data code length length d) by (try assumption; lia).
    discriminate.
  - rewrite (Sum_out_of_range K V P data code length length d) by (try assumption; lia).
    discriminate.
Qed.

(** C5, as stated, fails: the explicit length 2 is accepted for murmur3,
    and the call returns the first two bytes of the encoding. *)
Lemma Sum_MURMUR3_length_2_accepted :
  (Sum multicodec (ValidCode_spec multicodec) standIns [] (MURMUR3 multicodec) 2
     standardGlobals).1 = Ret [0x22; 2; 1; 2]
  /\ ~ (exists e,
          (Sum multicodec (ValidCode_spec multicodec) standIns [] (MURMUR3 multicodec) 2
             standardGlobals).1 = Fail e).
Proof.
  split.
  - vm_compute. reflexivity.
  - intros [e He]. vm_compute in He. discriminate.
Qed.

(** C5, amended.  For the murmur3 code, [Sum] computes the four
    little-endian bytes of the 32-bit murmur3 sum of the input; a resolved
    length [n] between 0 and 4, explicit or taken from the default-length
    table on a negative [length], is accepted and selects the first [n] of
    these bytes. *)
Theorem Sum_MURMUR3_le32 (K : Constants) (V : Z -> bool) (P : Primitives)
    (data : list byte) (length n : Z) (g : Globals) :
  consts_wf K -> prim_wf P -> V (MURMUR3 K) = true ->
  resolvedLength g (MURMUR3 K) length = Some n -> 0 <= n <= 4 ->
  returns (Sum K V P data (MURMUR3 K) length g) (MURMUR3 K)
          (take (Z.to_nat n) (le32 (murmur3_Sum32 P data))).
Proof.
  intros HK HP Hv Hr Hn.
  assert (Hin : MURMUR3 K ∈ fixedCodes K)
    by (unfold fixedCodes; rewrite !elem_of_cons; tauto).
  destruct (fixed_code_facts K HK _ Hin) as [_ Hc].
  pose proof (Sum_switch_MURMUR3 K P HK data g) as Hd.
  rewrite sumMURMUR3_le32 in Hd.
  rewrite <- (backing_whole (le32 (murmur3_Sum32 P data))).
  apply Sum_returns; try assumption.
  unfold uint64_max. lia.
Qed.

Lemma Sum_MURMUR3_le32_witness :
  returns (Sum multicodec (ValidCode_spec multicodec) standIns [] 0x22 (-1) standardGlobals)
          0x22 [1; 2; 3; 4].
Proof.
  apply (Sum_MURMUR3_le32 multicodec (ValidCode_spec multicodec) standIns
           [] (-1) 4 standardGlobals).
  - exact multicodec_wf.
  - exact standIns_wf.
  - vm_compute. reflexivity.
  - vm_compute. reflexivity.
  - lia.
Defined.

(** The bytes of [le32] are bytes, and they are the base-256 digits of a
    32-bit value, least significant first. *)
Lemma le32_value (x : Z) :
  is_uint32 x ->
  exists b0 b1 b2 b3,
    le32 x = [b0; b1; b2; b3] /\
    is_byte b0 /\ is_byte b1 /\ is_byte b2 /\ is_byte b3 /\
    x = b0 + 256 * b1 + 65536 * b2 + 16777216 * b3.
Proof.
  intros [Hlo Hhi]. change (2 ^ 32) with 4294967296 in Hhi.
  eexists _, _, _, _. split; [reflexivity |].
  unfold is_byte.
  pose proof (Z.mod_pos_bound x 256 ltac:(lia)).
  pose proof (Z.mod_pos_bound (x / 256) 256 ltac:(lia)).
  pose proof (Z.mod_pos_bound (x / 65536) 256 ltac:(lia)).
  pose proof (Z.mod_pos_bound (x / 16777216) 256 ltac:(lia)).
  repeat split; try lia.
  pose proof (Z.div_mod x 256 ltac:(lia)).
  pose proof (Z.div_mod (x / 256) 256 ltac:(lia)).
  pose proof (Z.div_mod (x / 65536) 256 ltac:(lia)).
  assert (x / 256 / 256 = x / 65536) by (rewrite Z.div_div by lia; reflexivity).
  assert (x / 65536 / 256 = x / 16777216) by (rewrite Z.div_div by lia; reflexivity).
  assert (0 <= x / 16777216 < 256)
    by (split; [apply Z.div_pos; lia | apply Z.div_lt_upper_bound; lia]).
  rewrite (Z.mod_small (x / 16777216) 256) by lia. lia.
Qed.

(** C6.  Truncation: for every code with the default length [DL] and
    every length [l] with [0 <= l < DL], when [Sum(data, code, DL)] returns
    the digest [dg], [Sum(data, code, l)] returns exactly the first [l]
    bytes of [dg], for every input [data]. *)
Theorem Sum_truncation (K : Constants) (V : Z -> bool) (P : Primitives)
    (data : list byte) (code DL l : Z) (dg : list byte) (g : Globals) :
  DefaultLengths g !! code = Some DL -> DL <= uint64_max ->
  0 <= l < DL ->
  returns (Sum K V P data code DL g) code dg ->
  returns (Sum K V P data code l g) code (take (Z.to_nat l) dg).
Proof.
  intros _ Hmax Hl (mh & Hret & Hdec).
  apply Sum_returns_inv in Hret as (n & d & Hv & Hr & Hd & Hn & Hc & ->).
  rewrite resolvedLength_explicit in Hr by lia. injection Hr as <-.
  rewrite <- (length_take_backing d DL) in Hdec at 1 by exact Hn.
  rewrite Decode_encoding in Hdec;
    [| exact Hc | rewrite length_take_backing by exact Hn; unfold is_uint64; lia].
  injection Hdec as _ <-.
  rewrite take_take, Nat.min_l by lia.
  apply Sum_returns; try assumption; try lia.
  apply resolvedLength_explicit. lia.
Qed.

Lemma Sum_truncation_witness :
  returns (Sum multicodec (ValidCode_spec multicodec) standIns [9; 8; 7] 0x12 2 standardGlobals)
          0x12 (take 2 (padded 32 [9; 8; 7])).
Proof.
  apply (Sum_truncation multicodec (ValidCode_spec multicodec) standIns
           [9; 8; 7] 0x12 32 2 (padded 32 [9; 8; 7]) standardGlobals).
  - vm_compute. reflexivity.
  - unfold uint64_max. lia.
  - lia.
  - eexists. split; vm_compute; reflexivity.
Defined.

(** C7.  A code that the registry does not recognise makes [Sum] fail with
    the invalid-code error, for every input, every length and whatever the
    hash primitives are; a recognised code without an entry in the
    default-length table makes [Sum] fail with the no-default-length error
    when [length] is negative. *)
Theorem Sum_rejects (K : Constants) (V : Z -> bool) (P : Primitives)
    (data : list byte) (code length : Z) (g : Globals) :
  (V code = false ->
   Sum K V P data code length g = (Fail (InvalidCode code), g)) /\
  (V code = true -> length < 0 -> DefaultLengths g !! code = None ->
   Sum K V P data code length g = (Fail (NoDefaultLength code), g)).
Proof.
  split.
  - apply Sum_invalid.
  - intros Hv Hneg Hnone. apply Sum_no_default; [exact Hv |].
    rewrite resolvedLength_default by exact Hneg. exact Hnone.
Qed.

Lemma Sum_rejects_witness :
  Sum multicodec (ValidCode_spec multicodec) standIns [1] 0x15 7 standardGlobals
  = (Fail (InvalidCode 0x15), standardGlobals)
  /\ Sum multicodec (ValidCode_spec multicodec) standIns [1] 0x11 (-1)
       {| DefaultLengths := ∅ |}
     = (Fail (NoDefaultLength 0x11), {| DefaultLengths := ∅ |}).
Proof.
  split.
  - apply (Sum_rejects multicodec (ValidCode_spec multicodec) standIns
             [1] 0x15 7 standardGlobals).
    vm_compute. reflexivity.
  - apply (Sum_rejects multicodec (ValidCode_spec multicodec) standIns
             [1] 0x11 (-1) {| DefaultLengths := ∅ |}).
    + vm_compute. reflexivity.
    + lia.
    + vm_compute. reflexivity.
Defined.

(** The double-application code on any input. *)
Lemma Sum_DBL_SHA2_256 (K : Constants) (V : Z -> bool) (P : Primitives)
    (data : list byte) (length n : Z) (g : Globals) :
  consts_wf K -> prim_wf P -> V (DBL_SHA2_256 K) = true ->
  resolvedLength g (DBL_SHA2_256 K) length = Some n -> 0 <= n <= 32 ->
  returns (Sum K V P data (DBL_SHA2_256 K) length g) (DBL_SHA2_256 K)
          (take (Z.to_nat n) (sha256_Sum256 P (sha256_Sum256 P data))).
Proof.
  intros HK HP Hv Hr Hn.
  assert (Hin : DBL_SHA2_256 K ∈ fixedCodes K)
    by (unfold fixedCodes; rewrite !elem_of_cons; tauto).
  destruct (fixed_code_facts K HK _ Hin) as [_ Hc].
  pose proof (Sum_switch_DBL_SHA2_256 K P HK data g) as Hd.
  unfold sumSHA256 in Hd.
  rewrite (of_array_whole (sha256_Sum256 P data)) in Hd by apply (sha256_size P HP).
  cbn [GoSlice.elems] in Hd.
  rewrite of_array_whole in Hd by apply (sha256_size P HP).
  rewrite <- (backing_whole (sha256_Sum256 P (sha256_Sum256 P data))).
  apply Sum_returns; try assumption.
  - rewrite cap_whole, (sha256_size P HP). lia.
  - unfold uint64_max. lia.
Qed.

(** C8.  Hashing the empty byte sequence with the double-application code
    and a negative [length]: [Sum] returns SHA-256 applied to the SHA-256
    of the empty input, truncated to the default length [n]; with the
    default length 32 this is the whole 32-byte digest. *)
Theorem Sum_DBL_SHA2_256_empty (K : Constants) (V : Z -> bool) (P : Primitives)
    (length n : Z) (g : Globals) :
  consts_wf K -> prim_wf P -> V (DBL_SHA2_256 K) = true ->
  length < 0 -> DefaultLengths g !! DBL_SHA2_256 K = Some n -> 0 <= n <= 32 ->
  returns (Sum K V P [] (DBL_SHA2_256 K) length g) (DBL_SHA2_256 K)
          (take (Z.to_nat n) (sha256_Sum256 P (sha256_Sum256 P [])))
  /\ (n = 32 ->
      take (Z.to_nat n) (sha256_Sum256 P (sha256_Sum256 P []))
      = sha256_Sum256 P (sha256_Sum256 P [])
      /\ List.length (sha256_Sum256 P (sha256_Sum256 P [])) = 32%nat).
Proof.
  intros HK HP Hv Hneg Hn Hle. split.
  - apply Sum_DBL_SHA2_256; try assumption.
    rewrite resolvedLength_default by exact Hneg. exact Hn.
  - intros ->. split; [| apply (sha256_size P HP)].
    apply take_ge. rewrite (sha256_size P HP). lia.
Qed.

Lemma Sum_DBL_SHA2_256_empty_witness :
  returns (Sum multicodec (ValidCode_spec multicodec) standIns [] 0x56 (-1) standardGlobals)
          0x56 (take 32 (padded 32 (padded 32 []))).
Proof.
  apply (Sum_DBL_SHA2_256_empty multicodec (ValidCode_spec multicodec) standIns
           (-1) 32 standardGlobals).
  - exact multicodec_wf.
  - exact standIns_wf.
  - vm_compute. reflexivity.
  - lia.
  - vm_compute. reflexivity.
  - lia.
Defined.

(** The digest of the [switch] does not depend on the package-level
    state. *)
Lemma Sum_switch_pure (K : Constants) (P : Primitives)
    (data : list byte) (code : Z) (g g' : Globals) :
  (Sum_switch K P data code g).1 = (Sum_switch K P data code g').1.
Proof.
  unfold Sum_switch, sumSHA3.
  repeat match goal with
         | |- context [if ?b then _ else _] => destruct b
         end;
    try reflexivity.
  destruct (sha3_New512_Write P data); reflexivity.
Qed.

(** The outcome of [Sum] depends on the package-level state through the
    resolved length only. *)
Lemma Sum_state_dependence (K : Constants) (V : Z -> bool) (P : Primitives)
    (data : list byte) (code length : Z) (g g' : Globals) :
  resolvedLength g code length = resolvedLength g' code length ->
  (Sum K V P data code length g).1 = (Sum K V P data code length g').1.
Proof.
  intros Hr.
  destruct (V code) eqn:Hv; [| rewrite !Sum_invalid by exact Hv; reflexivity].
  destruct (resolvedLength g' code length) as [n |] eqn:Hr';
    [| rewrite !Sum_no_default by assumption; reflexivity].
  rewrite !(Sum_resolved K V P data code length n) by assumption.
  pose proof (Sum_switch_pure K P data code g g') as Hp.
  destruct (Sum_switch K P data code g) as [o1 g1].
  destruct (Sum_switch K P data code g') as [o2 g2].
  cbn [fst] in Hp. subst o2.
  destruct o1 as [d | e | p]; [| reflexivity ..].
  destruct (GoSlice.reslice d n); [| reflexivity].
  destruct (Encode _ _ _); reflexivity.
Qed.

(** C9, as stated, fails: [Sum] reads the package-level table
    [DefaultLengths], and the same arguments give different multihashes
    under two values of the table. *)
Lemma Sum_reads_DefaultLengths :
  (Sum multicodec (ValidCode_spec multicodec) standIns [] 0x11 (-1)
     {| DefaultLengths := {[ 0x11 := 20 ]} |}).1
  <> (Sum multicodec (ValidCode_spec multicodec) standIns [] 0x11 (-1)
        {| DefaultLengths := {[ 0x11 := 10 ]} |}).1.
Proof. vm_compute. discriminate. Qed.

(** C9, amended.  [Sum] is deterministic: a call leaves the package-level
    state as it found it, so that a second call with the same arguments,
    made after the first, ends in the same outcome (the same multihash, the
    same error or the same panic); and the outcome depends on the
    package-level state only through the entry of the code in
    [DefaultLengths], read when [length] is negative. *)
Theorem Sum_deterministic (K : Constants) (V : Z -> bool) (P : Primitives)
    (data : list byte) (code length : Z) (g g' : Globals) :
  0 <= length \/ DefaultLengths g !! code = DefaultLengths g' !! code ->
  let first := Sum K V P data code length g in
  let second := Sum K V P data code length first.2 in
  first.2 = g /\ second = first /\
  (Sum K V P data code length g').1 = first.1.
Proof.
  intros Hdep. cbv zeta. rewrite Sum_frame. split; [reflexivity |].
  split; [reflexivity |].
  apply Sum_state_dependence. unfold resolvedLength.
  destruct (Z.ltb_spec length 0); [| reflexivity].
  destruct Hdep as [Hpos | Heq]; [lia | symmetry; exact Heq].
Qed.

Lemma Sum_deterministic_witness :
  let first :=
    Sum multicodec (ValidCode_spec multicodec) standIns [3] 0x13 (-1) standardGlobals in
  let second :=
    Sum multicodec (ValidCode_spec multicodec) standIns [3] 0x13 (-1) first.2 in
  first.2 = standardGlobals /\ second = first /\
  (Sum multicodec (ValidCode_spec multicodec) standIns [3] 0x13 (-1)
     {| DefaultLengths := {[ 0x13 := 64 ]} |}).1 = first.1.
Proof.
  apply (Sum_deterministic multicodec (ValidCode_spec multicodec) standIns
           [3] 0x13 (-1) standardGlobals {| DefaultLengths := {[ 0x13 := 64 ]} |}).
  right. vm_compute. reflexivity.
Defined.

(** C10, as stated, fails: the family code of blake2b with the derived
    size 1 has no primitive, and [Sum] with the explicit length 1 returns
    the unsupported-length error, not one byte of a digest. *)
Lemma Sum_family_unimplemented_size :
  familyOf multicodec 0xb201 = Some Blake2b /\
  derivedSize multicodec Blake2b 0xb201 = 1 /\
  Sum multicodec (ValidCode_spec multicodec) standIns [] 0xb201 1 standardGlobals
  = (Fail (UnsupportedLength Blake2b 1), standardGlobals) /\
  ~ (exists dg,
       returns (Sum multicodec (ValidCode_spec multicodec) standIns [] 0xb201 1
                  standardGlobals) 0xb201 dg).
Proof.
  split; [reflexivity |]. split; [reflexivity |]. split; [vm_compute; reflexivity |].
  intros (dg & mh & Hret & _). vm_compute in Hret. discriminate.
Qed.

(** C10, amended.  For a blake2s or blake2b family code whose derived
    size is implemented, the primitive is the one of the derived size,
    whatever the requested length; an explicit length [l] between 0 and
    the derived size makes [Sum] return the first [l] bytes of that
    primitive's digest. *)
Theorem Sum_family_truncates (K : Constants) (V : Z -> bool) (P : Primitives)
    (data : list byte) (c l : Z) (f : family) (g : Globals) :
  consts_wf K -> prim_wf P ->
  is_uint64 c -> V c = true -> familyOf K c = Some f ->
  supportedSize f (derivedSize K f c) = true ->
  0 <= l <= derivedSize K f c ->
  returns (Sum K V P data c l g) c
          (take (Z.to_nat l) (familyDigest P f (derivedSize K f c) data)).
Proof.
  intros HK HP Hc Hv Hf Hs Hl.
  assert (Hmin : is_uint64 (familyMin K f))
    by (destruct f; [apply (blake2s_min_uint64 K HK) | apply (blake2b_min_uint64 K HK)]).
  destruct (supportedSize_wrap K c f Hf Hc Hmin) as [Hsup Hwrap].
  pose proof (Sum_switch_family K P data c f g Hf) as Hd. cbv zeta in Hd.
  rewrite Hsup, Hs, (Hwrap Hs) in Hd.
  pose proof (familyDigest_size P f _ data HP Hs) as Hlen.
  assert (Hb : derivedSize K f c <= 64).
  { revert Hs. unfold supportedSize. destruct f.
    - intros ->%Z.eqb_eq. lia.
    - rewrite !orb_true_iff, !Z.eqb_eq. lia. }
  rewrite <- (backing_whole (familyDigest P f (derivedSize K f c) data)).
  apply Sum_returns; try assumption.
  - apply resolvedLength_explicit. lia.
  - rewrite cap_whole. lia.
  - unfold uint64_max. lia.
Qed.

Lemma Sum_family_truncates_witness :
  returns (Sum multicodec (ValidCode_spec multicodec) standIns [5; 6] 0xb240 3 standardGlobals)
          0xb240 (take 3 (padded 64 [5; 6])).
Proof.
  apply (Sum_family_truncates multicodec (ValidCode_spec multicodec) standIns
           [5; 6] 0xb240 3 Blake2b standardGlobals).
  - exact multicodec_wf.
  - exact standIns_wf.
  - unfold is_uint64, uint64_max. lia.
  - vm_compute. reflexivity.
  - vm_compute. reflexivity.
  - vm_compute. reflexivity.
  - vm_compute. split; discriminate.
Defined.

(** * Further properties of [sum.go] *)

(** ** The [switch], case by case *)

(** The [switch] computes a digest of the natural size for every code that
    selects a primitive. *)
Lemma Sum_switch_outputSize (K : Constants) (P : Primitives)
    (data : list byte) (c sz : Z) (g : Globals) :
  prim_wf P -> outputSize K c = Some sz ->
  exists d, Sum_switch K P data c g = (Ret d, g) /\ GoSlice.len d = sz.
Proof.
  intros HP Hsz. unfold outputSize in Hsz.
  destruct (familyOf K c) as [f |] eqn:Hf.
  - cbv zeta in Hsz.
    destruct (supportedSize f (wrap64 (derivedSize K f c))) eqn:Hs; [| discriminate].
    injection Hsz as <-.
    pose proof (Sum_switch_family K P data c f g Hf) as Hd. cbv zeta in Hd.
    rewrite Hs in Hd. eexists. split; [exact Hd |].
    unfold GoSlice.len. cbn [GoSlice.elems].
    apply familyDigest_size; assumption.
  - apply familyOf_None in Hf as [Hs Hb].
    unfold Sum_switch. rewrite Hs, Hb.
    unfold sumSHA1, sumSHA256, sumSHA512, sumKeccak224, sumKeccak256,
      sumKeccak384, sumKeccak512, sumSHA3.
    rewrite (sha3_write_ok P HP).
    repeat match goal with
           | H : context [c =? ?k] |- _ => destruct (Z.eqb_spec c k)
           end;
      try discriminate; injection Hsz as <-;
      (eexists; split; [munfold; reflexivity |]).
    all: try (rewrite of_array_whole by
                 first [apply (sha1_size P HP) | apply (sha256_size P HP)
                       | apply (sha512_size P HP)]).
    all: unfold GoSlice.len; cbn [GoSlice.elems];
      rewrite ?(sha1_size P HP), ?(sha256_size P HP), ?(sha512_size P HP);
      try reflexivity.
    + apply (keccak224_size P HP).
    + apply (keccak256_size P HP).
    + apply (keccak384_size P HP).
    + apply (keccak512_size P HP).
    + apply (sha3_size P HP).
Qed.

(** The [default] case of the inner [switch]. *)
Lemma Sum_switch_default (K : Constants) (P : Primitives)
    (data : list byte) (c : Z) (g : Globals) :
  familyOf K c = None -> c ∉ fixedCodes K ->
  Sum_switch K P data c g = (Fail ErrSumNotSupported, g).
Proof.
  intros [Hs Hb]%familyOf_None Hnot.
  unfold fixedCodes in Hnot. rewrite !not_elem_of_cons in Hnot.
  unfold Sum_switch. rewrite Hs, Hb.
  repeat match goal with
         | |- context [c =? ?k] =>
             destruct (Z.eqb_spec c k); [exfalso; intuition congruence |]
         end.
  reflexivity.
Qed.

(** Why the [switch] ends in an error. *)
Lemma Sum_switch_error_cases (K : Constants) (P : Primitives)
    (data : list byte) (c : Z) (e : error) (g : Globals) :
  (Sum_switch K P data c g).1 = Fail e ->
  (exists f,
     e = UnsupportedLength f (wrap64 (derivedSize K f c)) /\
     familyOf K c = Some f /\
     supportedSize f (wrap64 (derivedSize K f c)) = false)
  \/ (e = ErrSumNotSupported /\ familyOf K c = None /\ c ∉ fixedCodes K)
  \/ (exists msg,
        e = PrimitiveFailure msg /\ c = SHA3 K /\
        sha3_New512_Write P data = Some msg).
Proof.
  destruct (familyOf K c) as [f |] eqn:Hf.
  - rewrite (Sum_switch_family K P data c f g Hf). cbv zeta.
    destruct (supportedSize f (wrap64 (derivedSize K f c))) eqn:Hs;
      cbn [fst]; [discriminate |].
    intros [= <-]. left. exists f. auto.
  - destruct (familyOf_None K c Hf) as [Hs Hb].
    unfold Sum_switch. rewrite Hs, Hb. unfold sumSHA3.
    repeat match goal with
           | |- context [c =? ?k] => destruct (Z.eqb_spec c k)
           end;
      try (munfold; cbn [fst]; discriminate).
    + destruct (sha3_New512_Write P data) as [msg |] eqn:Hw;
        munfold; cbn [fst]; [| discriminate].
      intros [= <-]. right. right. exists msg. auto.
    + munfold. cbn [fst]. intros [= <-]. right. left.
      split; [reflexivity |]. split; [reflexivity |].
      unfold fixedCodes. rewrite !not_elem_of_cons.
      repeat split; try assumption. apply not_elem_of_nil.
Qed.

Section FixedDispatch.

Variable K : Constants.
Variable P : Primitives.
Hypothesis HK : consts_wf K.

Ltac select_case :=
  let Hnd := fresh "Hnd" in
  let Hin := fresh "Hin" in
  match goal with
  | |- Sum_switch K P _ ?c _ = _ =>
      assert (Hin : c ∈ fixedCodes K)
        by (unfold fixedCodes; rewrite !elem_of_cons; tauto);
      apply (fixed_code_facts K HK) in Hin as [[? ?]%familyOf_None _]
  end;
  unfold Sum_switch;
  repeat match goal with
         | H : isBlake2s K _ = false |- _ => rewrite H; clear H
         | H : isBlake2b K _ = false |- _ => rewrite H; clear H
         end;
  pose proof (fixed_distinct K HK) as Hnd; unfold fixedCodes in Hnd;
  repeat (apply NoDup_cons in Hnd as [? Hnd]);
  repeat match goal with
         | H : _ ∉ _ :: _ |- _ => rewrite !not_elem_of_cons in H
         end;
  repeat match goal with
         | |- context [?a =? ?b] =>
             destruct (Z.eqb_spec a b); [try (exfalso; intuition congruence) |]
         end;
  first [reflexivity | congruence].

Lemma Sum_switch_SHA2_256 (data : list byte) (g : Globals) :
  Sum_switch K P data (SHA2_256 K) g = (Ret (sumSHA256 P data), g).
Proof. select_case. Qed.

Lemma Sum_switch_SHA2_512 (data : list byte) (g : Globals) :
  Sum_switch K P data (SHA2_512 K) g = (Ret (sumSHA512 P data), g).
Proof. select_case. Qed.

Lemma Sum_switch_KECCAK_224 (data : list byte) (g : Globals) :
  Sum_switch K P data (KECCAK_224 K) g = (Ret (sumKeccak224 P data), g).
Proof. select_case. Qed.

Lemma Sum_switch_KECCAK_256 (data : list byte) (g : Globals) :
  Sum_switch K P data (KECCAK_256 K) g = (Ret (sumKeccak256 P data), g).
Proof. select_case. Qed.

Lemma Sum_switch_KECCAK_384 (data : list byte) (g : Globals) :
  Sum_switch K P data (KECCAK_384 K) g = (Ret (sumKeccak384 P data), g).
Proof. select_case. Qed.

Lemma Sum_switch_KECCAK_512 (data : list byte) (g : Globals) :
  Sum_switch K P data (KECCAK_512 K) g = (Ret (sumKeccak512 P data), g).
Proof. select_case. Qed.

Lemma Sum_switch_SHA3 (data : list byte) (g : Globals) :
  Sum_switch K P data (SHA3 K) g = sumSHA3 P data g.
Proof. select_case. Qed.

End FixedDispatch.

(** ** What callers of [Sum] can rely on *)

(** X1.  For every code that selects a primitive (a fixed code or a family
    code of an implemented size) and every explicit length [l] between 0
    and the natural output size, [Sum] succeeds and returns a digest of
    exactly [l] bytes; the digests of the shorter lengths are its
    prefixes. *)
Theorem Sum_explicit_length (K : Constants) (V : Z -> bool) (P : Primitives)
    (data : list byte) (c l sz : Z) (g : Globals) :
  prim_wf P -> V c = true -> is_uint64 c ->
  outputSize K c = Some sz -> 0 <= l <= sz ->
  exists dg,
    returns (Sum K V P data c l g) c dg /\
    Z.of_nat (List.length dg) = l /\
    forall l', 0 <= l' <= l ->
      returns (Sum K V P data c l' g) c (take (Z.to_nat l') dg).
Proof.
  intros HP Hv Hc Hsz Hl.
  destruct (Sum_switch_outputSize K P data c sz g HP Hsz) as (d & Hd & Hlen).
  pose proof (outputSize_bound K c sz Hsz) as Hb.
  pose proof (len_le_cap d) as Hcap.
  exists (take (Z.to_nat l) (GoSlice.backing d)). split; [| split].
  - apply Sum_returns; try assumption; try (unfold uint64_max; lia).
    apply resolvedLength_explicit. lia.
  - apply length_take_backing. lia.
  - intros l' Hl'. rewrite take_take, Nat.min_l by lia.
    apply Sum_returns; try assumption; try (unfold uint64_max; lia).
    apply resolvedLength_explicit. lia.
Qed.

Lemma Sum_explicit_length_witness :
  exists dg,
    returns (Sum multicodec (ValidCode_spec multicodec) standIns [1; 2] 0x1C 40 standardGlobals)
            0x1C dg /\
    Z.of_nat (List.length dg) = 40 /\
    forall l', 0 <= l' <= 40 ->
      returns (Sum multicodec (ValidCode_spec multicodec) standIns [1; 2] 0x1C l'
                 standardGlobals) 0x1C (take (Z.to_nat l') dg).
Proof.
  apply (Sum_explicit_length multicodec (ValidCode_spec multicodec) standIns
           [1; 2] 0x1C 40 48 standardGlobals).
  - exact standIns_wf.
  - vm_compute. reflexivity.
  - unfold is_uint64, uint64_max. lia.
  - vm_compute. reflexivity.
  - lia.
Defined.

(** X2.  A code that [ValidCode] accepts but that is neither in a family
    range nor one of the ten fixed codes of the [switch] makes [Sum] fail
    with [ErrSumNotSupported], once its length is resolved (an explicit
    length, or a table entry for a negative one). *)
Theorem Sum_not_implemented (K : Constants) (V : Z -> bool) (P : Primitives)
    (data : list byte) (c length : Z) (g : Globals) :
  V c = true -> familyOf K c = None -> c ∉ fixedCodes K ->
  0 <= length \/ is_Some (DefaultLengths g !! c) ->
  Sum K V P data c length g = (Fail ErrSumNotSupported, g).
Proof.
  intros Hv Hf Hnot Hres.
  assert (Hr : exists n, resolvedLength g c length = Some n).
  { unfold resolvedLength. destruct (Z.ltb_spec length 0); [| eauto].
    destruct Hres as [Hpos | [n Hn]]; [lia | eauto]. }
  destruct Hr as [n Hr].
  apply (Sum_switch_fails K V P data c length n); try assumption.
  apply Sum_switch_default; assumption.
Qed.

Lemma Sum_not_implemented_witness :
  Sum multicodec (fun _ => true) standIns [1; 2] 0x05 3 standardGlobals
  = (Fail ErrSumNotSupported, standardGlobals).
Proof.
  apply (Sum_not_implemented multicodec (fun _ => true) standIns
           [1; 2] 0x05 3 standardGlobals).
  - reflexivity.
  - reflexivity.
  - apply (bool_decide_unpack _). vm_compute. exact I.
  - left. lia.
Defined.

(** X3.  When the [Write] of the sha3 hash reports an error, [Sum] on the
    SHA3 code returns that error as it is, whatever the resolved length,
    also one above the digest size: the error is returned before the
    digest is sliced. *)
Theorem Sum_SHA3_write_error (K : Constants) (V : Z -> bool) (P : Primitives)
    (data : list byte) (length : Z) (msg : string) (g : Globals) :
  consts_wf K -> V (SHA3 K) = true ->
  sha3_New512_Write P data = Some msg ->
  0 <= length \/ is_Some (DefaultLengths g !! SHA3 K) ->
  Sum K V P data (SHA3 K) length g = (Fail (PrimitiveFailure msg), g).
Proof.
  intros HK Hv Hw Hres.
  assert (Hr : exists n, resolvedLength g (SHA3 K) length = Some n).
  { unfold resolvedLength. destruct (Z.ltb_spec length 0); [| eauto].
    destruct Hres as [Hpos | [n Hn]]; [lia | eauto]. }
  destruct Hr as [n Hr].
  apply (Sum_switch_fails K V P data (SHA3 K) length n); try assumption.
  rewrite (Sum_switch_SHA3 K P HK). unfold sumSHA3. rewrite Hw. reflexivity.
Qed.

Lemma Sum_SHA3_write_error_witness :
  Sum multicodec (ValidCode_spec multicodec) standInsFailingWrite [1] 0x14 1000
    standardGlobals
  = (Fail (PrimitiveFailure "short write"), standardGlobals).
Proof.
  apply (Sum_SHA3_write_error multicodec (ValidCode_spec multicodec)
           standInsFailingWrite [1] 1000 "short write" standardGlobals).
  - exact multicodec_wf.
  - vm_compute. reflexivity.
  - reflexivity.
  - left. lia.
Defined.

(** X4.  The explicit length 0 is accepted for every code that selects a
    primitive, and the multihash returned is the code followed by the
    length byte 0, without any digest byte: it is the same for all
    inputs. *)
Theorem Sum_zero_length (K : Constants) (V : Z -> bool) (P : Primitives)
    (data data' : list byte) (c sz : Z) (g : Globals) :
  prim_wf P -> V c = true -> is_uint64 c -> outputSize K c = Some sz ->
  Sum K V P data c 0 g = (Ret (putUvarint c ++ [0]), g) /\
  Sum K V P data' c 0 g = Sum K V P data c 0 g.
Proof.
  intros HP Hv Hc Hsz.
  assert (H0 : forall x, Sum K V P x c 0 g = (Ret (putUvarint c ++ [0]), g)).
  { intros x.
    destruct (Sum_switch_outputSize K P x c sz g HP Hsz) as (d & Hd & Hlen).
    assert (Hcap : 0 <= GoSlice.cap d) by (unfold GoSlice.cap; lia).
    rewrite (Sum_digest K V P x c 0 0 d g Hv (resolvedLength_explicit g c 0 ltac:(lia)) Hd)
      by (try assumption; lia).
    change (Z.to_nat 0) with 0%nat. rewrite take_0. reflexivity. }
  rewrite !H0. auto.
Qed.

Lemma Sum_zero_length_witness :
  Sum multicodec (ValidCode_spec multicodec) standIns [1] 0x12 0 standardGlobals
  = (Ret (putUvarint 0x12 ++ [0]), standardGlobals) /\
  Sum multicodec (ValidCode_spec multicodec) standIns [2; 3] 0x12 0 standardGlobals
  = Sum multicodec (ValidCode_spec multicodec) standIns [1] 0x12 0 standardGlobals.
Proof.
  apply (Sum_zero_length multicodec (ValidCode_spec multicodec) standIns
           [1] [2; 3] 0x12 32 standardGlobals).
  - exact standIns_wf.
  - vm_compute. reflexivity.
  - unfold is_uint64, uint64_max. lia.
  - vm_compute. reflexivity.
Defined.

(** X5.  Whenever [Sum] returns a multihash, the code was valid, the
    resolved length [n] is not negative, and the multihash decodes to the
    code passed in, to the length [n] and to a digest of exactly [n]
    bytes. *)
Theorem Sum_result_decodes (K : Constants) (V : Z -> bool) (P : Primitives)
    (data : list byte) (code length n : Z) (mh : Multihash) (g : Globals) :
  (Sum K V P data code length g).1 = Ret mh ->
  resolvedLength g code length = Some n -> n <= uint64_max ->
  V code = true /\ 0 <= n /\
  exists dg,
    Decode mh = inr {| Code := code; Length := n; Digest := dg |} /\
    Z.of_nat (List.length dg) = n.
Proof.
  intros Hret Hr Hmax.
  apply Sum_returns_inv in Hret as (n' & d & Hv & Hr' & Hd & Hn & Hc & ->).
  rewrite Hr in Hr'. injection Hr' as <-.
  split; [exact Hv |]. split; [lia |].
  exists (take (Z.to_nat n) (GoSlice.backing d)).
  pose proof (length_take_backing d n Hn) as Hlen.
  split; [| exact Hlen].
  rewrite <- Hlen at 1 3. apply Decode_encoding; [exact Hc |].
  rewrite Hlen. unfold is_uint64. lia.
Qed.

Lemma Sum_result_decodes_witness :
  ValidCode_spec multicodec 0x13 = true /\ 0 <= 64 /\
  exists dg,
    Decode (putUvarint 0x13 ++ putUvarint 64 ++ padded 64 [5])
    = inr {| Code := 0x13; Length := 64; Digest := dg |} /\
    Z.of_nat (List.length dg) = 64.
Proof.
  apply (Sum_result_decodes multicodec (ValidCode_spec multicodec) standIns
           [5] 0x13 (-1) 64 _ standardGlobals).
  - vm_compute. reflexivity.
  - vm_compute. reflexivity.
  - unfold uint64_max. lia.
Defined.

(** X6.  [sumMURMUR3] never fails and returns exactly four bytes, each
    below 256; they are the base-256 digits of the 32-bit sum, least
    significant first, so that the sum can be read back from them. *)
Theorem sumMURMUR3_little_endian (P : Primitives) (data : list byte) (g : Globals) :
  is_uint32 (murmur3_Sum32 P data) ->
  exists b0 b1 b2 b3,
    sumMURMUR3 P data g = (Ret (GoSlice.mk [b0; b1; b2; b3] []), g) /\
    is_byte b0 /\ is_byte b1 /\ is_byte b2 /\ is_byte b3 /\
    murmur3_Sum32 P data = b0 + 256 * b1 + 65536 * b2 + 16777216 * b3.
Proof.
  intros Hx.
  destruct (le32_value _ Hx) as (b0 & b1 & b2 & b3 & Hle & H0 & H1 & H2 & H3 & Hv).
  exists b0, b1, b2, b3.
  rewrite sumMURMUR3_le32, Hle. auto 10.
Qed.

Lemma sumMURMUR3_little_endian_witness :
  exists b0 b1 b2 b3,
    sumMURMUR3 standIns [7] standardGlobals
    = (Ret (GoSlice.mk [b0; b1; b2; b3] []), standardGlobals) /\
    is_byte b0 /\ is_byte b1 /\ is_byte b2 /\ is_byte b3 /\
    murmur3_Sum32 standIns [7] = b0 + 256 * b1 + 65536 * b2 + 16777216 * b3.
Proof.
  apply (sumMURMUR3_little_endian standIns [7] standardGlobals).
  vm_compute. split; [discriminate | reflexivity].
Defined.

(** X7.  The primitive behind each fixed code: for an explicit length [l]
    within the digest size, [Sum] returns the first [l] bytes of
    [sha1.Sum] for SHA1, of [sha256.Sum256] for SHA2_256, of
    [sha512.Sum512] for SHA2_512, of the keccak hash of the named size for
    the four KECCAK codes, of the 512-bit sha3 hash for SHA3, and of
    SHA-256 applied twice for DBL_SHA2_256. *)
Theorem Sum_fixed_dispatch (K : Constants) (V : Z -> bool) (P : Primitives)
    (data : list byte) (l : Z) (g : Globals) :
  consts_wf K -> prim_wf P -> (forall c, c ∈ fixedCodes K -> V c = true) ->
  0 <= l ->
  (l <= 20 ->
   returns (Sum K V P data (SHA1 K) l g) (SHA1 K)
           (take (Z.to_nat l) (sha1_Sum P data))) /\
  (l <= 32 ->
   returns (Sum K V P data (SHA2_256 K) l g) (SHA2_256 K)
           (take (Z.to_nat l) (sha256_Sum256 P data))) /\
  (l <= 64 ->
   returns (Sum K V P data (SHA2_512 K) l g) (SHA2_512 K)
           (take (Z.to_nat l) (sha512_Sum512 P data))) /\
  (l <= 28 ->
   returns (Sum K V P data (KECCAK_224 K) l g) (KECCAK_224 K)
           (take (Z.to_nat l) (GoSlice.elems (keccak_New224 P data)))) /\
  (l <= 32 ->
   returns (Sum K V P data (KECCAK_256 K) l g) (KECCAK_256 K)
           (take (Z.to_nat l) (GoSlice.elems (keccak_New256 P data)))) /\
  (l <= 48 ->
   returns (Sum K V P data (KECCAK_384 K) l g) (KECCAK_384 K)
           (take (Z.to_nat l) (GoSlice.elems (keccak_New384 P data)))) /\
  (l <= 64 ->
   returns (Sum K V P data (KECCAK_512 K) l g) (KECCAK_512 K)
           (take (Z.to_nat l) (GoSlice.elems (keccak_New512 P data)))) /\
  (l <= 64 ->
   returns (Sum K V P data (SHA3 K) l g) (SHA3 K)
           (take (Z.to_nat l) (GoSlice.elems (sha3_New512_Sum P data)))) /\
  (l <= 32 ->
   returns (Sum K V P data (DBL_SHA2_256 K) l g) (DBL_SHA2_256 K)
           (take (Z.to_nat l) (sha256_Sum256 P (sha256_Sum256 P data)))).
Proof.
  intros HK HP HV Hl.
  assert (Hfix : forall c, c ∈ fixedCodes K -> V c = true /\ is_uint64 c).
  { intros c Hin. split; [apply HV; exact Hin |].
    apply (fixed_code_facts K HK c Hin). }
  assert (Harr : forall c a n,
             c ∈ fixedCodes K ->
             Sum_switch K P data c g = (Ret (GoSlice.of_array a 0 n), g) ->
             List.length a = n -> l <= Z.of_nat n -> l <= 64 ->
             returns (Sum K V P data c l g) c (take (Z.to_nat l) a)).
  { intros c a n Hin Hd Hlen Hle H64. destruct (Hfix c Hin) as [Hv Hc].
    rewrite of_array_whole in Hd by exact Hlen.
    rewrite <- (backing_whole a).
    apply Sum_returns; try assumption.
    - apply resolvedLength_explicit. exact Hl.
    - rewrite cap_whole. lia.
    - unfold uint64_max. lia. }
  assert (Hsl : forall c d,
             c ∈ fixedCodes K ->
             Sum_switch K P data c g = (Ret d, g) ->
             l <= GoSlice.len d -> l <= 64 ->
             returns (Sum K V P data c l g) c (take (Z.to_nat l) (GoSlice.elems d))).
  { intros c d Hin Hd Hle H64. destruct (Hfix c Hin) as [Hv Hc].
    rewrite <- take_backing_within by lia.
    pose proof (len_le_cap d).
    apply Sum_returns; try assumption; try lia.
    - apply resolvedLength_explicit. exact Hl.
    - unfold uint64_max. lia. }
  assert (Hmem : forall c, In c (fixedCodes K) -> c ∈ fixedCodes K)
    by (intros c; apply list_elem_of_In).
  repeat split; intros Hle.
  - apply (Harr _ _ 20%nat); [apply Hmem; cbn; tauto | apply (Sum_switch_SHA1 K P HK)
                            | apply (sha1_size P HP) | lia | lia].
  - apply (Harr _ _ 32%nat); [apply Hmem; cbn; tauto | apply (Sum_switch_SHA2_256 K P HK)
                            | apply (sha256_size P HP) | lia | lia].
  - apply (Harr _ _ 64%nat); [apply Hmem; cbn; tauto | apply (Sum_switch_SHA2_512 K P HK)
                            | apply (sha512_size P HP) | lia | lia].
  - apply Hsl; [apply Hmem; cbn; tauto | apply (Sum_switch_KECCAK_224 K P HK) | | lia].
    unfold sumKeccak224. rewrite (keccak224_size P HP). lia.
  - apply Hsl; [apply Hmem; cbn; tauto | apply (Sum_switch_KECCAK_256 K P HK) | | lia].
    unfold sumKeccak256. rewrite (keccak256_size P HP). lia.
  - apply Hsl; [apply Hmem; cbn; tauto | apply (Sum_switch_KECCAK_384 K P HK) | | lia].
    unfold sumKeccak384. rewrite (keccak384_size P HP). lia.
  - apply Hsl; [apply Hmem; cbn; tauto | apply (Sum_switch_KECCAK_512 K P HK) | | lia].
    unfold sumKeccak512. rewrite (keccak512_size P HP). lia.
  - apply Hsl; [apply Hmem; cbn; tauto | | | lia].
    + rewrite (Sum_switch_SHA3 K P HK). unfold sumSHA3.
      rewrite (sha3_write_ok P HP). reflexivity.
    + rewrite (sha3_size P HP). lia.
  - apply (Harr _ _ 32%nat); [apply Hmem; cbn; tauto | | apply (sha256_size P HP) | lia | lia].
    rewrite (Sum_switch_DBL_SHA2_256 K P HK). unfold sumSHA256. cbv zeta.
    rewrite (of_array_whole (sha256_Sum256 P data) 32) by apply (sha256_size P HP).
    reflexivity.
Qed.

Lemma Sum_fixed_dispatch_witness :
  returns (Sum multicodec (ValidCode_spec multicodec) standIns [1] 0x13 10 standardGlobals)
          0x13 (take 10 (padded 64 [1])).
Proof.
  refine (proj1 (proj2 (proj2
            (Sum_fixed_dispatch multicodec (ValidCode_spec multicodec) standIns
               [1] 10 standardGlobals multicodec_wf standIns_wf _ _))) _).
  - intros c Hc. unfold ValidCode_spec.
    rewrite (bool_decide_eq_true_2 _ Hc). reflexivity.
  - lia.
  - lia.
Defined.

(** X8.  A negative [length] stands for the table entry of the code:
    [Sum(data, code, length)] is [Sum(data, code, n)] for the entry [n] of
    the code in [DefaultLengths]. *)
Theorem Sum_default_as_explicit (K : Constants) (V : Z -> bool) (P : Primitives)
    (data : list byte) (code length n : Z) (g : Globals) :
  length < 0 -> DefaultLengths g !! code = Some n ->
  Sum K V P data code length g = Sum K V P data code n g.
Proof.
  intros Hneg Hn.
  destruct (V code) eqn:Hv; [| rewrite !Sum_invalid by exact Hv; reflexivity].
  assert (Hr : resolvedLength g code length = Some n)
    by (rewrite resolvedLength_default by exact Hneg; exact Hn).
  assert (Hr' : resolvedLength g code n = Some n).
  { unfold resolvedLength. destruct (n <? 0); [exact Hn | reflexivity]. }
  rewrite (Sum_resolved K V P data code length n g Hv Hr).
  rewrite (Sum_resolved K V P data code n n g Hv Hr').
  reflexivity.
Qed.

Lemma Sum_default_as_explicit_witness :
  Sum multicodec (ValidCode_spec multicodec) standIns [4; 2] 0x1A (-7) standardGlobals
  = Sum multicodec (ValidCode_spec multicodec) standIns [4; 2] 0x1A 28 standardGlobals.
Proof.
  apply (Sum_default_as_explicit multicodec (ValidCode_spec multicodec) standIns
           [4; 2] 0x1A (-7) 28 standardGlobals).
  - lia.
  - vm_compute. reflexivity.
Defined.

(** X9.  The errors of [Sum]: when a call on a [uint64] code ends in an
    error, the error is the invalid-code error of a code that [ValidCode]
    rejects, the no-default-length error of a negative length without a
    table entry, the unsupported-length error of a family code whose
    derived size has no [case], [ErrSumNotSupported] for a code outside the
    families and the ten fixed codes, or the error of the sha3 [Write] on
    the SHA3 code. *)
Theorem Sum_error_cases (K : Constants) (V : Z -> bool) (P : Primitives)
    (data : list byte) (code length : Z) (e : error) (g : Globals) :
  is_uint64 code ->
  (Sum K V P data code length g).1 = Fail e ->
  (e = InvalidCode code /\ V code = false)
  \/ (e = NoDefaultLength code /\ length < 0 /\ DefaultLengths g !! code = None)
  \/ (exists f,
        e = UnsupportedLength f (wrap64 (derivedSize K f code)) /\
        familyOf K code = Some f /\
        supportedSize f (wrap64 (derivedSize K f code)) = false)
  \/ (e = ErrSumNotSupported /\ familyOf K code = None /\ code ∉ fixedCodes K)
  \/ (exists msg,
        e = PrimitiveFailure msg /\ code = SHA3 K /\
        sha3_New512_Write P data = Some msg).
Proof.
  intros Hc Hfail.
  destruct (V code) eqn:Hv.
  2: { rewrite Sum_invalid in Hfail by exact Hv. injection Hfail as <-. auto. }
  destruct (resolvedLength g code length) as [n |] eqn:Hr.
  2: { rewrite Sum_no_default in Hfail by assumption. injection Hfail as <-.
       right. left. unfold resolvedLength in Hr.
       destruct (Z.ltb_spec length 0); [auto | discriminate]. }
  right. right.
  rewrite (Sum_resolved K V P data code length n g Hv Hr) in Hfail.
  pose proof (Sum_switch_error_cases K P data code e g) as Hsw.
  destruct (Sum_switch K P data code g) as [[d | e' | p] g'];
    cbn [fst] in *; [| | discriminate].
  - exfalso. destruct (GoSlice.reslice d n) as [buf |] eqn:Hb; [| discriminate].
    rewrite Encode_inr in Hfail; [discriminate | exact Hc | reflexivity].
  - injection Hfail as <-. apply Hsw. reflexivity.
Qed.

Lemma Sum_error_cases_witness :
  (UnsupportedLength Blake2s 16 = InvalidCode 0xb250 /\
   ValidCode_spec multicodec 0xb250 = false)
  \/ (UnsupportedLength Blake2s 16 = NoDefaultLength 0xb250 /\ -1 < 0 /\
      DefaultLengths standardGlobals !! 0xb250 = None)
  \/ (exists f,
        UnsupportedLength Blake2s 16
        = UnsupportedLength f (wrap64 (derivedSize multicodec f 0xb250)) /\
        familyOf multicodec 0xb250 = Some f /\
        supportedSize f (wrap64 (derivedSize multicodec f 0xb250)) = false)
  \/ (UnsupportedLength Blake2s 16 = ErrSumNotSupported /\
      familyOf multicodec 0xb250 = None /\ 0xb250 ∉ fixedCodes multicodec)
  \/ (exists msg,
        UnsupportedLength Blake2s 16 = PrimitiveFailure msg /\
        0xb250 = SHA3 multicodec /\
        sha3_New512_Write standIns [] = Some msg).
Proof.
  apply (Sum_error_cases multicodec (ValidCode_spec multicodec) standIns
           [] 0xb250 (-1) (UnsupportedLength Blake2s 16) standardGlobals).
  - unfold is_uint64, uint64_max. lia.
  - vm_compute. reflexivity.
Defined.

(** X10.  The only panic of [Sum] is that of the slice expression
    [d[0:length]]: a call panics only after a valid code and a digest [d]
    from the [switch], with a resolved length that is negative or above
    the capacity of [d]; a resolved length within the capacity never
    panics. *)
Theorem Sum_panic_cases (K : Constants) (V : Z -> bool) (P : Primitives)
    (data : list byte) (code length : Z) (p : panic) (g : Globals) :
  (Sum K V P data code length g).1 = Crash p ->
  exists n d,
    V code = true /\ resolvedLength g code length = Some n /\
    Sum_switch K P data code g = (Ret d, g) /\
    p = SliceBoundsOutOfRange n (GoSlice.cap d) /\
    (n < 0 \/ GoSlice.cap d < n).
Proof.
  intros Hcrash.
  destruct (V code) eqn:Hv; [| rewrite Sum_invalid in Hcrash by exact Hv; discriminate].
  destruct (resolvedLength g code length) as [n |] eqn:Hr;
    [| rewrite Sum_no_default in Hcrash by assumption; discriminate].
  rewrite (Sum_resolved K V P data code length n g Hv Hr) in Hcrash.
  pose proof (Sum_switch_frame K P data code g) as Hfr.
  destruct (Sum_switch K P data code g) as [[d | e | q] g'] eqn:Hd;
    cbn [fst snd] in *; subst g'.
  - exists n, d.
    split; [reflexivity |]. split; [reflexivity |]. split; [reflexivity |].
    destruct (Z.le_gt_cases 0 n) as [H0 |]; [destruct (Z.le_gt_cases n (GoSlice.cap d)) |].
    + exfalso. rewrite reslice_within in Hcrash by lia.
      destruct (Encode _ _ _); discriminate.
    + rewrite reslice_outside in Hcrash by lia. injection Hcrash as <-. auto.
    + rewrite reslice_outside in Hcrash by lia. injection Hcrash as <-. auto.
  - discriminate.
  - exfalso. clear Hcrash. revert Hd. unfold Sum_switch, sumSHA3.
    repeat match goal with
           | |- context [if ?b then _ else _] => destruct b
           end;
      try (munfold; discriminate).
    destruct (sha3_New512_Write P data); munfold; discriminate.
Qed.

Lemma Sum_panic_cases_witness :
  exists n d,
    ValidCode_spec multicodec 0x22 = true /\
    resolvedLength standardGlobals 0x22 5 = Some n /\
    Sum_switch multicodec standIns [] 0x22 standardGlobals = (Ret d, standardGlobals) /\
    SliceBoundsOutOfRange 5 4 = SliceBoundsOutOfRange n (GoSlice.cap d) /\
    (n < 0 \/ GoSlice.cap d < n).
Proof.
  apply (Sum_panic_cases multicodec (ValidCode_spec multicodec) standIns
           [] 0x22 5 (SliceBoundsOutOfRange 5 4) standardGlobals).
  vm_compute. reflexivity.
Defined.
